(** * Bi-adaptive model composition: a shallow embedding of
      [farm/modeling/biadaptive_model.py]

    The Python module binds two language-model encoders and a list of
    prediction heads into one model.  Encoders, heads, dropout and the
    (de)serialisation of single heads and encoders are collaborators that the
    module only calls; they appear here as records of functions or as section
    variables.  The module's own control flow (loops over [zip], branches on
    the number of heads, dictionary updates on [kwargs], raised exceptions,
    files written and listed) is transcribed definition by definition.

    Effects are threaded through a small state-and-exception monad [M]: the
    state holds a chronological trace of collaborator calls, the two dropout
    draw counters and the file system.  Collaborator calls themselves are
    taken to return. *)

From Stdlib Require Import ZArith QArith Ascii String DecimalString.
From stdpp Require Import base strings list gmap sorting.

Local Open Scope string_scope.
Local Open Scope list_scope.
Local Open Scope nat_scope.

(** ** Exceptions, streams, events *)

Inductive exn : Type :=
| KeyError (key : string)
| ValueError (msg : string)
| TypeError (msg : string)
| IndexError (msg : string)
| AttributeError (attr : string)
| AssertionError (msg : string)
| UnboundLocalError (name : string)
| RuntimeError (msg : string)
| OSError (msg : string)
| NameError (name : string)
| Exception (msg : string).

Inductive result (A : Type) : Type :=
| Ok (a : A)
| Raise (e : exn).
Arguments Ok {A} a.
Arguments Raise {A} e.

(** The two encoder streams: [language_model1] with [dropout1], and
    [language_model2] with [dropout2]. *)
Inductive stream : Type := LM1 | LM2.

(** Calls into collaborators, in the order they happen.  A head is named by
    its object identity [ph_id]. *)
Inductive event : Type :=
| EncoderForward (s : stream)
| EncoderFormattedPreds (s : stream)
| DropoutDraw (s : stream) (k : nat)
| HeadForward (h : nat)
| HeadLogitsToLoss (h : nat)
| HeadLogitsToPreds (h : nat)
| HeadFormattedPreds (h : nat)
| HeadPrepareLabels (h : nat)
| MergeFormattedPreds
| ClassLoad (cls : string).

(** Python's [needle in hay] on strings. *)
Fixpoint str_contains (needle hay : string) : bool :=
  String.prefix needle hay ||
  match hay with
  | EmptyString => false
  | String _ rest => str_contains needle rest
  end.

(** [str(i)] for a non-negative index. *)
Definition str_of_nat (i : nat) : string :=
  NilZero.string_of_uint (Nat.to_uint i).

(** A path, as its components; [p / name] is [p ++ [name]]. *)
Definition path : Type := list string.

(** [p <= q] on paths: the components compared as Python compares lists
    of strings, each string by code points. *)
Fixpoint path_leb (p q : path) : bool :=
  match p, q with
  | [], _ => true
  | _ :: _, [] => false
  | a :: p', b :: q' =>
      match String.compare a b with
      | Lt => true
      | Gt => false
      | Eq => path_leb p' q'
      end
  end.

(** [list.sort()]: stable insertion into ascending order. *)
Fixpoint sort_insert (x : path) (l : list path) : list path :=
  match l with
  | [] => [x]
  | y :: r => if path_leb x y then x :: y :: r else y :: sort_insert x r
  end.

Definition sort_paths (l : list path) : list path :=
  foldr sort_insert [] l.

Fixpoint zip3 {A B C} (la : list A) (lb : list B) (lc : list C)
  : list (A * B * C) :=
  match la, lb, lc with
  | a :: la', b :: lb', c :: lc' => (a, b, c) :: zip3 la' lb' lc'
  | _, _, _ => []
  end.

Section Model.
Context {scalar ph_config lm_config : Type}.

(** ** Python values *)

(** Objects that flow through the composition.  A tensor is one-dimensional
    (one entry per sample, [VTensor]) or zero-dimensional ([VScalar]); its
    entries live in [scalar]. *)
#[warnings="-register-all"] Inductive value : Type :=
| VNone
| VInt (n : Z)
| VStr (s : string)
| VScalar (x : scalar)
| VTensor (xs : list scalar)
| VTuple (vs : list value)
| VList (vs : list value)
| VDict (kvs : list (string * value))
| VObject (attrs : list (string * value)).

(** Scalar addition of the tensor runtime and the coercion of a Python int. *)
Variable sadd : scalar → scalar → scalar.
Variable sint : Z → scalar.

(** [a + b] on ints and tensors.  An int or a zero-dimensional tensor is
    broadcast over a one-dimensional one; two one-dimensional tensors need
    equal lengths, unless one has length 1 and is broadcast. *)
Definition py_add (a b : value) : result value :=
  match a, b with
  | VInt x, VInt y => Ok (VInt (x + y))
  | VInt x, VScalar y => Ok (VScalar (sadd (sint x) y))
  | VScalar x, VInt y => Ok (VScalar (sadd x (sint y)))
  | VScalar x, VScalar y => Ok (VScalar (sadd x y))
  | VInt x, VTensor ys => Ok (VTensor (map (sadd (sint x)) ys))
  | VTensor xs, VInt y => Ok (VTensor (map (fun x => sadd x (sint y)) xs))
  | VScalar x, VTensor ys => Ok (VTensor (map (sadd x) ys))
  | VTensor xs, VScalar y => Ok (VTensor (map (fun x => sadd x y) xs))
  | VTensor xs, VTensor ys =>
      if Nat.eqb (length xs) (length ys) then
        Ok (VTensor (zip_with sadd xs ys))
      else match xs, ys with
           | [x], _ => Ok (VTensor (map (sadd x) ys))
           | _, [y] => Ok (VTensor (map (fun x => sadd x y) xs))
           | _, _ => Raise (RuntimeError "The size of tensor a must match the size of tensor b")
           end
  | _, _ => Raise (TypeError "unsupported operand type(s) for +")
  end.

(** The built-in [sum(xs)]: a left fold of [+] starting from the int [0]. *)
Fixpoint py_sum_from (acc : value) (xs : list value) : result value :=
  match xs with
  | [] => Ok acc
  | x :: rest =>
      match py_add acc x with
      | Ok acc' => py_sum_from acc' rest
      | Raise e => Raise e
      end
  end.

Definition py_sum (xs : list value) : result value := py_sum_from (VInt 0) xs.

(** The characters of a string, each as a string. *)
Fixpoint str_chars (s : string) : list string :=
  match s with
  | EmptyString => []
  | String c rest => String c EmptyString :: str_chars rest
  end.

(** [for x in v] *)
Definition py_iter (v : value) : result (list value) :=
  match v with
  | VList vs | VTuple vs => Ok vs
  | VStr s => Ok (VStr <$> str_chars s)
  | VDict kvs => Ok ((fun kv => VStr kv.1) <$> kvs)
  | VTensor xs => Ok (VScalar <$> xs)
  | VScalar _ => Raise (TypeError "iteration over a 0-d tensor")
  | VNone | VInt _ | VObject _ => Raise (TypeError "object is not iterable")
  end.

(** [v[i]] for a non-negative int [i]; the keys of a dict are strings. *)
Definition py_getitem (v : value) (i : nat) : result value :=
  match v with
  | VList vs | VTuple vs =>
      match vs !! i with
      | Some x => Ok x
      | None => Raise (IndexError "index out of range")
      end
  | VStr s =>
      match str_chars s !! i with
      | Some c => Ok (VStr c)
      | None => Raise (IndexError "string index out of range")
      end
  | VTensor xs =>
      match xs !! i with
      | Some x => Ok (VScalar x)
      | None => Raise (IndexError "index out of bounds")
      end
  | VDict _ => Raise (KeyError (str_of_nat i))
  | VScalar _ => Raise (IndexError "invalid index of a 0-dim tensor")
  | VNone | VInt _ | VObject _ => Raise (TypeError "object is not subscriptable")
  end.

(** [obj.attr] *)
Fixpoint assoc_lookup (k : string) (kvs : list (string * value)) : option value :=
  match kvs with
  | [] => None
  | (k', v) :: rest => if String.eqb k k' then Some v else assoc_lookup k rest
  end.

Definition py_getattr (v : value) (attr : string) : result value :=
  match v with
  | VObject attrs =>
      match assoc_lookup attr attrs with
      | Some x => Ok x
      | None => Raise (AttributeError attr)
      end
  | _ => Raise (AttributeError attr)
  end.

(** ** Files *)

Inductive content : Type :=
| HeadConfigJson (c : ph_config)     (* prediction_head_<i>_config.json *)
| HeadWeights (c : ph_config)        (* prediction_head_<i>.bin *)
| EncoderArtifacts (c : lm_config)   (* written by LanguageModel.save *)
| OnnxGraph                          (* model.onnx *)
| ModelConfigJson (language : option string)
| OtherFile.

#[warnings="-register-all"] Inductive node : Type :=
| File (c : content)
| Dir (children : gmap string node).

(** ** The state-and-exception monad *)

Record world : Type := {
  w_trace : list event;
  w_draws1 : nat;
  w_draws2 : nat;
  w_fs : node   (* the root directory *)
}.

Definition M (A : Type) : Type := world → world * result A.

Definition ret {A} (a : A) : M A := fun w => (w, Ok a).

Definition raise {A} (e : exn) : M A := fun w => (w, Raise e).

Definition bind {A B} (c : M A) (k : A → M B) : M B :=
  fun w =>
    match c w with
    | (w', Ok a) => k a w'
    | (w', Raise e) => (w', Raise e)
    end.

Definition lift {A} (r : result A) : M A := fun w => (w, r).

Definition emit (e : event) : M unit :=
  fun w => ({| w_trace := w_trace w ++ [e]; w_draws1 := w_draws1 w;
               w_draws2 := w_draws2 w; w_fs := w_fs w |}, Ok tt).

Definition get_fs : M node :=
  fun w => (w, Ok (w_fs w)).

Definition put_fs (fs : node) : M unit :=
  fun w => ({| w_trace := w_trace w; w_draws1 := w_draws1 w;
               w_draws2 := w_draws2 w; w_fs := fs |}, Ok tt).

Local Notation "x <~ c ;; k" := (bind c (fun x => k))
  (at level 20, c at level 99, k at level 200, only parsing).

(** ** Collaborators *)

(** A keyword call [f(name=v, **kwargs)].  The callers below own the names
    they pass ([logits], [preds] are parameters of the calling method or were
    deleted from [kwargs] before), so the binding never clashes. *)
Definition kw (name : string) (v : value) (kwargs : gmap string value)
  : gmap string value := <[name := v]> kwargs.

(** An encoder ([LanguageModel]); [.to(device)] leaves all of this as it is. *)
Record LanguageModel : Type := {
  lm_name : string;
  language : string;
  get_output_dims : nat;
  lm_call : gmap string value → value * value;         (* (pooled, hidden) *)
  lm_formatted_preds : gmap string value → value;
  lm_generate_config : lm_config                       (* what save writes *)
}.

(** A prediction head.  [label_tensor_name], [label_list] and [metric] are
    attributes that exist only once set ([None] here: [hasattr] is false). *)
Record PredictionHead : Type := {
  ph_id : nat;
  task_name : string;
  ph_output_type : string;
  label_tensor_name : option string;
  label_list : option (option (list string));
  metric : option string;
  ph_call : value → value → value;                     (* head(output1, output2) *)
  ph_logits_to_loss : gmap string value → value;
  ph_logits_to_preds : gmap string value → value;
  ph_formatted_preds : gmap string value → value;
  ph_prepare_labels : gmap string value → value;
  merge_formatted_preds : option (value → value);
  ph_generate_config : ph_config                       (* what save writes *)
}.

(** [nn.Dropout(p)]; the runtime's mask for the [k]-th call on a stream is
    [dropout_mask p s k]. *)
Record Dropout : Type := { dropout_p : Q }.

Variable dropout_mask : Q → stream → nat → value → value.

Definition dropout_call (s : stream) (d : Dropout) (x : value) : M value :=
  fun w =>
    let k := match s with LM1 => w_draws1 w | LM2 => w_draws2 w end in
    ({| w_trace := w_trace w ++ [DropoutDraw s k];
        w_draws1 := match s with LM1 => S (w_draws1 w) | LM2 => w_draws1 w end;
        w_draws2 := match s with LM1 => w_draws2 w | LM2 => S (w_draws2 w) end;
        w_fs := w_fs w |},
     Ok (dropout_mask (dropout_p d) s k x)).

Definition aggregation_fn : Type :=
  list value → value → option (gmap string value) → result value.

(** ** [loss_per_head_sum] *)

Definition loss_per_head_sum : aggregation_fn :=
  fun loss_per_head global_step batch => py_sum loss_per_head.

(** ** [BiAdaptiveModel] *)

Record BiAdaptiveModel : Type := {
  device : string;
  language_model1 : LanguageModel;
  lm1_output_dims : nat;
  language_model2 : LanguageModel;
  lm2_output_dims : nat;
  prediction_heads : list PredictionHead;
  dropout1 : Dropout;
  dropout2 : Dropout;
  lm1_output_types : list string;
  lm2_output_types : list string;
  loss_aggregation_fn : aggregation_fn
}.

(** The [lm_output_types] arguments: "a single string, or a list of strings". *)
Inductive output_types_arg : Type :=
| OneType (s : string)
| TypeList (l : list string).

(** The default of both [lm1_output_types] and [lm2_output_types]. *)
Definition default_output_types : output_types_arg := TypeList ["per_sequence"].

(** [[x] if isinstance(x, str) else x] *)
Definition as_type_list (a : output_types_arg) : list string :=
  match a with
  | OneType s => [s]
  | TypeList l => l
  end.

(** [BiAdaptiveModel.__init__]; an argument left out is [None] here and
    takes the default of the signature.  [.to(device)] returns the module it
    is called on, and [log_params] reports to the experiment logger and
    changes nothing on the model. *)
Definition BiAdaptiveModel_init
    (language_model1 language_model2 : LanguageModel)
    (prediction_heads : list PredictionHead)
    (embeds_dropout_prob : Q) (device : string)
    (lm1_output_types lm2_output_types : option output_types_arg)
    (loss_aggregation_fn : option aggregation_fn) : BiAdaptiveModel :=
  {| device := device;
     language_model1 := language_model1;
     lm1_output_dims := get_output_dims language_model1;
     language_model2 := language_model2;
     lm2_output_dims := get_output_dims language_model2;
     prediction_heads := prediction_heads;
     dropout1 := {| dropout_p := embeds_dropout_prob |};
     dropout2 := {| dropout_p := embeds_dropout_prob |};
     lm1_output_types := as_type_list (default default_output_types lm1_output_types);
     lm2_output_types := as_type_list (default default_output_types lm2_output_types);
     loss_aggregation_fn :=
       match loss_aggregation_fn with
       | Some f => f
       | None => loss_per_head_sum
       end |}.

(** ** [forward] *)

Definition forward_lm (self : BiAdaptiveModel) (kwargs : gmap string value)
  : M (value * value) :=
  _ <~ emit (EncoderForward LM1) ;;
  let '(pooled_output1, hidden_states1) := lm_call (language_model1 self) kwargs in
  _ <~ emit (EncoderForward LM2) ;;
  let '(pooled_output2, hidden_states2) := lm_call (language_model2 self) kwargs in
  ret (pooled_output1, pooled_output2).

Definition is_per_sequence (lm_out : string) : bool :=
  String.eqb lm_out "per_sequence" || String.eqb lm_out "per_sequence_continuous".

Definition unknown_extraction_strategy (lm_out : string) : exn :=
  ValueError ("Unknown extraction strategy from DPR model: " ++ lm_out).

(** The body of the loop over [zip(prediction_heads, lm1_output_types,
    lm2_output_types)], with [all_logits] as accumulator. *)
Fixpoint forward_heads (self : BiAdaptiveModel)
    (pooled_output1 pooled_output2 : value)
    (zipped : list (PredictionHead * string * string))
    (all_logits : list value) : M (list value) :=
  match zipped with
  | [] => ret all_logits
  | (head, lm1_out, lm2_out) :: rest =>
      output1 <~ (if is_per_sequence lm1_out
                  then dropout_call LM1 (dropout1 self) pooled_output1
                  else raise (unknown_extraction_strategy lm1_out)) ;;
      output2 <~ (if is_per_sequence lm2_out
                  then dropout_call LM2 (dropout2 self) pooled_output2
                  else raise (unknown_extraction_strategy lm2_out)) ;;
      _ <~ emit (HeadForward (ph_id head)) ;;
      forward_heads self pooled_output1 pooled_output2 rest
        (all_logits ++ [ph_call head output1 output2])
  end.

Definition forward (self : BiAdaptiveModel) (kwargs : gmap string value)
  : M value :=
  pooled <~ forward_lm self kwargs ;;
  let '(pooled_output1, pooled_output2) := pooled in
  let all_logits := [] in
  if Nat.ltb 0 (length (prediction_heads self)) then
    all_logits <~ forward_heads self pooled_output1 pooled_output2
                    (zip3 (prediction_heads self) (lm1_output_types self)
                          (lm2_output_types self)) all_logits ;;
    ret (VList all_logits)
  else
    ret (VList (all_logits ++ [VTuple [pooled_output1; pooled_output2]])).

(** ** [logits_to_loss_per_head], [logits_to_loss] *)

(** The message of the [assert hasattr(head, "label_tensor_name")]. *)
Definition head_not_connected (task : string) : exn :=
  AssertionError
    ("Label_tensor_names are missing inside the " ++ task ++
     " Prediction Head. Did you connect the model" ++
     " with the processor through either 'model.connect_heads_with_processor(processor.tasks)'" ++
     " or by passing the processor to the Adaptive Model?").

(** The loop over [zip(self.prediction_heads, logits)]. *)
Fixpoint logits_to_loss_per_head_loop
    (zipped : list (PredictionHead * value)) (kwargs : gmap string value)
    (all_losses : list value) : M (list value) :=
  match zipped with
  | [] => ret all_losses
  | (head, logits_for_one_head) :: rest =>
      _ <~ (match label_tensor_name head with
            | Some _ => ret tt
            | None => raise (head_not_connected (task_name head))
            end) ;;
      _ <~ emit (HeadLogitsToLoss (ph_id head)) ;;
      logits_to_loss_per_head_loop rest kwargs
        (all_losses ++ [ph_logits_to_loss head (kw "logits" logits_for_one_head kwargs)])
  end.

Definition logits_to_loss_per_head (self : BiAdaptiveModel)
    (logits : list value) (kwargs : gmap string value) : M (list value) :=
  logits_to_loss_per_head_loop (zip (prediction_heads self) logits) kwargs [].

Definition logits_to_loss (self : BiAdaptiveModel) (logits : list value)
    (global_step : value) (kwargs : gmap string value) : M value :=
  all_losses <~ logits_to_loss_per_head self logits kwargs ;;
  lift (loss_aggregation_fn self all_losses global_step (Some kwargs)).

(** ** [logits_to_preds], [prepare_labels] *)

Fixpoint logits_to_preds_loop (zipped : list (PredictionHead * value))
    (kwargs : gmap string value) (all_preds : list value) : M (list value) :=
  match zipped with
  | [] => ret all_preds
  | (head, logits_for_head) :: rest =>
      _ <~ emit (HeadLogitsToPreds (ph_id head)) ;;
      logits_to_preds_loop rest kwargs
        (all_preds ++ [ph_logits_to_preds head (kw "logits" logits_for_head kwargs)])
  end.

Definition logits_to_preds (heads : list PredictionHead) (logits : list value)
    (kwargs : gmap string value) : M (list value) :=
  logits_to_preds_loop (zip heads logits) kwargs [].

Fixpoint prepare_labels_loop (heads : list PredictionHead)
    (kwargs : gmap string value) (all_labels : list value) : M (list value) :=
  match heads with
  | [] => ret all_labels
  | head :: rest =>
      _ <~ emit (HeadPrepareLabels (ph_id head)) ;;
      prepare_labels_loop rest kwargs (all_labels ++ [ph_prepare_labels head kwargs])
  end.

Definition prepare_labels (self : BiAdaptiveModel) (kwargs : gmap string value)
  : M (list value) :=
  prepare_labels_loop (prediction_heads self) kwargs [].

(** ** [formatted_preds] *)

Definition rbind {A B} (r : result A) (k : A → result B) : result B :=
  match r with
  | Ok a => k a
  | Raise e => Raise e
  end.

Fixpoint rmap {A B} (f : A → result B) (l : list A) : result (list B) :=
  match l with
  | [] => Ok []
  | a :: rest => rbind (f a) (fun b => rbind (rmap f rest) (fun bs => Ok (b :: bs)))
  end.

Definition kwargs_get (kwargs : gmap string value) (key : string) : result value :=
  match kwargs !! key with
  | Some v => Ok v
  | None => Raise (KeyError key)
  end.

(** The [try] block of the one-head branch:
    [[item for sublist in [y[0] for y in preds] for item in sublist]]. *)
Definition flatten_collected_preds (kwargs : gmap string value)
  : result (gmap string value) :=
  rbind (kwargs_get kwargs "preds") (fun preds =>
  rbind (py_iter preds) (fun ys =>
  rbind (rmap (fun y => py_getitem y 0) ys) (fun temp =>
  rbind (rmap py_iter temp) (fun sublists =>
  Ok (<["preds" := VList (concat sublists)]> kwargs))))).

(** [[s for b in kwargs["baskets"] for s in b.samples]] *)
Definition collect_samples (kwargs : gmap string value) : result (list value) :=
  rbind (kwargs_get kwargs "baskets") (fun baskets =>
  rbind (py_iter baskets) (fun bs =>
  rbind (rmap (fun b => rbind (py_getattr b "samples") py_iter) bs) (fun per_basket =>
  Ok (concat per_basket)))).

(** [farm.utils.stack], which this module imports: the collected predictions
    regrouped by head. *)
Variable stack : value → result (list value).

(** Reading a name that the module neither defines nor imports. *)
Definition unbound_name {A} (name : string) : M A := raise (NameError name).

(** The loop of the many-heads branch over
    [enumerate(zip(prediction_heads, preds_for_heads, logits_for_heads))]. *)
Fixpoint formatted_preds_loop (i : nat)
    (zipped : list (PredictionHead * value * value))
    (kwargs : gmap string value) (preds_final : list (list value))
  : M (list (list value)) :=
  match zipped with
  | [] => ret preds_final
  | (head, preds_for_head, logits_for_head) :: rest =>
      _ <~ emit (HeadFormattedPreds (ph_id head)) ;;
      let preds :=
        ph_formatted_preds head
          (kw "logits" logits_for_head (kw "preds" preds_for_head kwargs)) in
      formatted_preds_loop (S i) rest kwargs
        (alter (fun bucket => bucket ++ [preds]) i preds_final)
  end.

(** Reading a local variable that a branch may have left unassigned. *)
Definition read_local (name : string) (binding : option value) : M value :=
  match binding with
  | Some v => ret v
  | None => raise (UnboundLocalError name)
  end.

Definition formatted_preds (heads : list PredictionHead) (logits : value)
    (language_model1 language_model2 : LanguageModel)
    (kwargs : gmap string value) : M value :=
  let n_heads := length heads in
  preds_final <~
    (match n_heads with
     | 0 =>
         _ <~ emit (EncoderFormattedPreds LM1) ;;
         let preds1_final := lm_formatted_preds language_model1 (kw "logits" logits kwargs) in
         _ <~ emit (EncoderFormattedPreds LM2) ;;
         let preds2_final := lm_formatted_preds language_model2 (kw "logits" logits kwargs) in
         ret None
     | 1 =>
         let preds_final := [] in
         kwargs <~ (match flatten_collected_preds kwargs with
                    | Ok kwargs' => ret kwargs'
                    | Raise (KeyError _) => ret (<["preds" := VNone]> kwargs)
                    | Raise e => raise e
                    end) ;;
         head <~ (match heads !! 0 with
                  | Some h => ret h
                  | None => raise (IndexError "index out of range")
                  end) ;;
         logits_for_head <~ lift (py_getitem logits 0) ;;
         _ <~ emit (HeadFormattedPreds (ph_id head)) ;;
         let preds := ph_formatted_preds head (kw "logits" logits_for_head kwargs) in
         match preds with
         | VList items => ret (Some (VList (preds_final ++ items)))
         | VDict kvs =>
             if bool_decide (is_Some (assoc_lookup "predictions" kvs))
             then ret (Some (VList (preds_final ++ [preds])))
             else ret (Some (VList preds_final))
         | _ => ret (Some (VList preds_final))
         end
     | _ =>
         let preds_final := replicate n_heads [] in
         preds <~ lift (kwargs_get kwargs "preds") ;;
         preds_for_heads <~ lift (stack preds) ;;
         let logits_for_heads := replicate n_heads VNone in
         samples <~ lift (collect_samples kwargs) ;;
         let kwargs := <["samples" := VList samples]> kwargs in
         let kwargs := delete "preds" kwargs in
         preds_final <~ formatted_preds_loop 0
                          (zip3 heads preds_for_heads logits_for_heads)
                          kwargs preds_final ;;
         (* [pick_single_fn] is not among the names the module imports from
            [farm.utils] ([MLFlowLogger], [stack]) and is defined nowhere in
            the module *)
         pick_single_fn <~
           (unbound_name "pick_single_fn"
              : M (list PredictionHead → string → option (value → value))) ;;
         match pick_single_fn heads "merge_formatted_preds" with
         | Some merge_fn =>
             _ <~ emit MergeFormattedPreds ;;
             ret (Some (merge_fn (VList (map VList preds_final))))
         | None => ret (Some (VList (map VList preds_final)))
         end
     end) ;;
  read_local "preds_final" preds_final.

(** ** [connect_heads_with_processor] *)

Record task : Type := {
  t_label_tensor_name : string;
  t_label_list : option (list string);
  t_metric : string
}.

(** Attribute assignments on a head. *)
Definition set_label_tensor_name (head : PredictionHead) (v : string)
  : PredictionHead :=
  {| ph_id := ph_id head; task_name := task_name head;
     ph_output_type := ph_output_type head;
     label_tensor_name := Some v;
     label_list := label_list head; metric := metric head;
     ph_call := ph_call head;
     ph_logits_to_loss := ph_logits_to_loss head;
     ph_logits_to_preds := ph_logits_to_preds head;
     ph_formatted_preds := ph_formatted_preds head;
     ph_prepare_labels := ph_prepare_labels head;
     merge_formatted_preds := merge_formatted_preds head;
     ph_generate_config := ph_generate_config head |}.

Definition set_label_list (head : PredictionHead) (v : option (list string))
  : PredictionHead :=
  {| ph_id := ph_id head; task_name := task_name head;
     ph_output_type := ph_output_type head;
     label_tensor_name := label_tensor_name head;
     label_list := Some v; metric := metric head;
     ph_call := ph_call head;
     ph_logits_to_loss := ph_logits_to_loss head;
     ph_logits_to_preds := ph_logits_to_preds head;
     ph_formatted_preds := ph_formatted_preds head;
     ph_prepare_labels := ph_prepare_labels head;
     merge_formatted_preds := merge_formatted_preds head;
     ph_generate_config := ph_generate_config head |}.

Definition set_metric (head : PredictionHead) (v : string) : PredictionHead :=
  {| ph_id := ph_id head; task_name := task_name head;
     ph_output_type := ph_output_type head;
     label_tensor_name := label_tensor_name head;
     label_list := label_list head; metric := Some v;
     ph_call := ph_call head;
     ph_logits_to_loss := ph_logits_to_loss head;
     ph_logits_to_preds := ph_logits_to_preds head;
     ph_formatted_preds := ph_formatted_preds head;
     ph_prepare_labels := ph_prepare_labels head;
     merge_formatted_preds := merge_formatted_preds head;
     ph_generate_config := ph_generate_config head |}.

(** [not label_list] *)
Definition label_list_is_falsy (label_list : option (list string)) : bool :=
  match label_list with
  | None | Some [] => true
  | Some (_ :: _) => false
  end.

(** One iteration of the loop: the head as it is left behind, and whether the
    iteration completed.  The attributes are assigned in place one by one, so
    a failing iteration leaves the earlier assignments on the head.

    Heads are values here, the list is updated position by position.  The
    code assigns to head objects, which the list holds by identity: the two
    agree when no head object stands at two positions of the list (the
    identities [ph_id] of the heads are pairwise distinct), and on every
    call that completes, since a completed iteration overwrites all three
    attributes from an entry that the task name alone determines.  What a
    failing call leaves on the heads it did not reach is stated for distinct
    heads only. *)
Definition connect_head (tasks : gmap string task) (require_labels : bool)
    (head : PredictionHead) : PredictionHead * result unit :=
  match tasks !! task_name head with
  | None => (head, Raise (KeyError (task_name head)))
  | Some t =>
      let head := set_label_tensor_name head (t_label_tensor_name t) in
      let label_list := t_label_list t in
      if label_list_is_falsy label_list && require_labels then
        (head, Raise (Exception ("The task '" ++ task_name head ++
                                 "' is missing a valid set of labels")))
      else
        let head := set_label_list head label_list in
        match label_list with
        | None => (head, Raise (TypeError "object of type 'NoneType' has no len()"))
        | Some labels =>
            let num_labels := length labels in
            (set_metric head (t_metric t), Ok tt)
        end
  end.

Fixpoint connect_heads (tasks : gmap string task) (require_labels : bool)
    (heads : list PredictionHead) : list PredictionHead * result unit :=
  match heads with
  | [] => ([], Ok tt)
  | head :: rest =>
      match connect_head tasks require_labels head with
      | (head', Ok _) =>
          let '(rest', r) := connect_heads tasks require_labels rest in
          (head' :: rest', r)
      | (head', Raise e) => (head' :: rest, Raise e)
      end
  end.

Definition with_heads (self : BiAdaptiveModel) (heads : list PredictionHead)
  : BiAdaptiveModel :=
  {| device := device self;
     language_model1 := language_model1 self;
     lm1_output_dims := lm1_output_dims self;
     language_model2 := language_model2 self;
     lm2_output_dims := lm2_output_dims self;
     prediction_heads := heads;
     dropout1 := dropout1 self;
     dropout2 := dropout2 self;
     lm1_output_types := lm1_output_types self;
     lm2_output_types := lm2_output_types self;
     loss_aggregation_fn := loss_aggregation_fn self |}.

(** The model after the call (its heads are updated in place) and the
    outcome of the call. *)
Definition connect_heads_with_processor (self : BiAdaptiveModel)
    (tasks : gmap string task) (require_labels : bool)
  : BiAdaptiveModel * result unit :=
  let '(heads, r) := connect_heads tasks require_labels (prediction_heads self) in
  (with_heads self heads, r).

(** ** The file system *)

Fixpoint fs_lookup (d : node) (p : path) {struct p} : option node :=
  match p with
  | [] => Some d
  | name :: rest =>
      match d with
      | Dir children =>
          match children !! name with
          | Some n => fs_lookup n rest
          | None => None
          end
      | File _ => None
      end
  end.

(** [os.makedirs(p, exist_ok=True)]: [None] when a component is a file. *)
Fixpoint fs_makedirs (d : node) (p : path) {struct p} : option node :=
  match d with
  | File _ => None
  | Dir children =>
      match p with
      | [] => Some d
      | name :: rest =>
          match fs_makedirs (default (Dir ∅) (children !! name)) rest with
          | Some sub => Some (Dir (<[name := sub]> children))
          | None => None
          end
      end
  end.

(** Writing a regular file: its directory must exist and the target must not
    be a directory. *)
Fixpoint fs_write (d : node) (p : path) (c : content) {struct p} : option node :=
  match d, p with
  | Dir children, [name] =>
      match children !! name with
      | Some (Dir _) => None
      | _ => Some (Dir (<[name := File c]> children))
      end
  | Dir children, name :: rest =>
      match children !! name with
      | Some sub =>
          match fs_write sub rest c with
          | Some sub' => Some (Dir (<[name := sub']> children))
          | None => None
          end
      | None => None
      end
  | _, _ => None
  end.

Definition path_str (p : path) : string := String.concat "/" p.

Definition makedirs (p : path) : M unit :=
  fs <~ get_fs ;;
  match fs_makedirs fs p with
  | Some fs' => put_fs fs'
  | None => raise (OSError ("File exists: " ++ path_str p))
  end.

Definition exists_ (p : path) : M bool :=
  fs <~ get_fs ;;
  ret (bool_decide (is_Some (fs_lookup fs p))).

Definition is_file (p : path) : M bool :=
  fs <~ get_fs ;;
  ret (match fs_lookup fs p with
       | Some (File _) => true
       | _ => false
       end).

Definition write_file (p : path) (c : content) : M unit :=
  fs <~ get_fs ;;
  match fs_write fs p c with
  | Some fs' => put_fs fs'
  | None => raise (OSError ("cannot write: " ++ path_str p))
  end.

Definition read_file (p : path) : M content :=
  fs <~ get_fs ;;
  match fs_lookup fs p with
  | Some (File c) => ret c
  | _ => raise (OSError ("cannot read: " ++ path_str p))
  end.

(** [os.listdir(p)], in the order the directory yields its entries. *)
Definition listdir (p : path) : M (list string) :=
  fs <~ get_fs ;;
  match fs_lookup fs p with
  | Some (Dir children) => ret (map_to_list children).*1
  | _ => raise (OSError ("not a directory: " ++ path_str p))
  end.

(** ** Saving and loading the collaborators *)

(** What [LanguageModel.load] and [PredictionHead.load] build from a stored
    configuration. *)
Variable LanguageModel_from_config : lm_config → LanguageModel.
Variable PredictionHead_from_config : ph_config → PredictionHead.

(** Modelled from the spec: [LanguageModel.save] and [LanguageModel.load]
    live in [farm.modeling.language_model].  "Save writes each encoder under
    a distinct named subdirectory"; its artifacts are "opaque to this core",
    one file stands for them. *)
Definition LanguageModel_save (lm : LanguageModel) (save_dir : path) : M unit :=
  write_file (save_dir ++ ["language_model_config.json"])
             (EncoderArtifacts (lm_generate_config lm)).

Definition LanguageModel_load (load_dir : path) : M LanguageModel :=
  c <~ read_file (load_dir ++ ["language_model_config.json"]) ;;
  match c with
  | EncoderArtifacts cfg => ret (LanguageModel_from_config cfg)
  | _ => raise (OSError ("no language model in: " ++ path_str load_dir))
  end.

(** Modelled from the spec: [PredictionHead.save] and [PredictionHead.load]
    live in [farm.modeling.prediction_head].  The directory layout is
    "prediction_head_<i>_config.json, one per head, i = 0-based index" and
    "prediction_head_<i>.<weights-ext>, one per head, weights payload". *)
Definition PredictionHead_save (ph : PredictionHead) (save_dir : path)
    (head_num : nat) : M unit :=
  _ <~ write_file (save_dir ++ [("prediction_head_" ++ str_of_nat head_num ++ ".bin")%string])
                  (HeadWeights (ph_generate_config ph)) ;;
  write_file (save_dir ++ [("prediction_head_" ++ str_of_nat head_num ++ "_config.json")%string])
             (HeadConfigJson (ph_generate_config ph)).

Definition PredictionHead_load (config_file : path) : M PredictionHead :=
  c <~ read_file config_file ;;
  match c with
  | HeadConfigJson cfg => ret (PredictionHead_from_config cfg)
  | _ => raise (ValueError ("not a prediction head config: " ++ path_str config_file))
  end.

(** ** [_get_prediction_head_files] *)

Definition _get_prediction_head_files (load_dir : path) : M (list path) :=
  files <~ listdir load_dir ;;
  let config_files :=
    map (fun f => load_dir ++ [f])
        (List.filter (fun f => str_contains "config.json" f &&
                               str_contains "prediction_head" f) files) in
  (* sort them to get correct order in case of multiple prediction heads *)
  ret (sort_paths config_files).

(** ** [BiAdaptiveModel.save] *)

Fixpoint save_heads (i : nat) (heads : list PredictionHead) (save_dir : path)
  : M unit :=
  match heads with
  | [] => ret tt
  | ph :: rest =>
      _ <~ PredictionHead_save ph save_dir i ;;
      save_heads (S i) rest save_dir
  end.

Definition save (self : BiAdaptiveModel) (save_dir : path) : M unit :=
  _ <~ makedirs save_dir ;;
  e1 <~ exists_ (save_dir ++ ["lm1"]) ;;
  _ <~ (if negb e1 then makedirs (save_dir ++ ["lm1"]) else ret tt) ;;
  e2 <~ exists_ (save_dir ++ ["lm2"]) ;;
  _ <~ (if negb e2 then makedirs (save_dir ++ ["lm2"]) else ret tt) ;;
  _ <~ LanguageModel_save (language_model1 self) (save_dir ++ ["lm1"]) ;;
  _ <~ LanguageModel_save (language_model2 self) (save_dir ++ ["lm2"]) ;;
  save_heads 0 (prediction_heads self) save_dir.

(** ** [BiAdaptiveModel.load] *)

(** The loop over [ph_config_files]; [ph_output_type] is collected and then
    not used. *)
Fixpoint load_heads (ph_config_files : list path)
    (prediction_heads : list PredictionHead) (ph_output_types : list string)
  : M (list PredictionHead) :=
  match ph_config_files with
  | [] => ret prediction_heads
  | config_file :: rest =>
      head <~ PredictionHead_load config_file ;;
      load_heads rest (prediction_heads ++ [head])
                 (ph_output_types ++ [ph_output_type head])
  end.

(** [cls.__name__] is [BiAdaptiveModel], or [ONNXWrapper], which inherits the
    method. *)
Definition BiAdaptiveModel_load (cls_name : string) (load_dir : path)
    (device : string) (strict : bool) (lm1_name lm2_name : string)
    (processor : option (gmap string task)) : M BiAdaptiveModel :=
  _ <~ emit (ClassLoad cls_name) ;;
  (* Language Model *)
  language_model1 <~ (if negb (String.eqb lm1_name "")
                      then LanguageModel_load (load_dir ++ [lm1_name])
                      else LanguageModel_load load_dir) ;;
  language_model2 <~ (if negb (String.eqb lm2_name "")
                      then LanguageModel_load (load_dir ++ [lm2_name])
                      else LanguageModel_load load_dir) ;;
  (* Prediction heads *)
  ph_config_files <~ _get_prediction_head_files load_dir ;;
  prediction_heads <~ load_heads ph_config_files [] [] ;;
  let model := BiAdaptiveModel_init language_model1 language_model2
                 prediction_heads (1 # 10)%Q device None None None in
  match processor with
  | Some tasks =>
      match connect_heads_with_processor model tasks true with
      | (model', Ok _) => ret model'
      | (_, Raise e) => raise e
      end
  | None => ret model
  end.

(** ** [ONNXBiAdaptiveModel] *)

Inductive onnx_session : Type := InferenceSession (model_path : path).

Record ONNXBiAdaptiveModel : Type := {
  onnx_session_of : onnx_session;
  onnx_prediction_heads : list PredictionHead;
  onnx_device : string;
  onnx_language : string
}.

(** [__init__] names the module-level [onnxruntime], which only [load]
    imports, and only locally. *)
Definition ONNXBiAdaptiveModel_init (session : onnx_session)
    (prediction_heads : list PredictionHead) (language : string)
    (device : string) : M ONNXBiAdaptiveModel :=
  if String.eqb device "cuda" then raise (NameError "onnxruntime")
  else ret {| onnx_session_of := session;
              onnx_prediction_heads := prediction_heads;
              onnx_device := device;
              onnx_language := language |}.

(** [onnxruntime.InferenceSession(str(load_dir / "model.onnx"), sess_options)] *)
Definition new_inference_session (model_path : path) : M onnx_session :=
  c <~ read_file model_path ;;
  match c with
  | OnnxGraph => ret (InferenceSession model_path)
  | _ => raise (RuntimeError ("not an ONNX graph: " ++ path_str model_path))
  end.

(** [_, ph_config_files = xs]: a list unpacked into two names. *)
Definition unpack2 {A} (xs : list A) : M (A * A) :=
  match xs with
  | [a; b] => ret (a, b)
  | [] | [_] =>
      raise (ValueError ("not enough values to unpack (expected 2, got " ++
                         str_of_nat (length xs) ++ ")"))
  | _ => raise (ValueError "too many values to unpack (expected 2)")
  end.

(** [for config_file in p] with [p] a single [Path]: a path has no
    [__iter__]. *)
Definition iter_path (p : path) : M (list path) :=
  raise (TypeError "'PosixPath' object is not iterable").

Fixpoint onnx_load_heads (ph_config_files : list path)
    (prediction_heads : list PredictionHead) (ph_output_types : list string)
  : M (list PredictionHead) :=
  match ph_config_files with
  | [] => ret prediction_heads
  | config_file :: rest =>
      head <~ PredictionHead_load config_file ;;
      onnx_load_heads rest (prediction_heads ++ [head])
                      (ph_output_types ++ [ph_output_type head])
  end.

Definition ONNXBiAdaptiveModel_load (load_dir : path) (device : string)
  : M ONNXBiAdaptiveModel :=
  _ <~ emit (ClassLoad "ONNXBiAdaptiveModel") ;;
  onnx_session <~ new_inference_session (load_dir ++ ["model.onnx"]) ;;
  (* Prediction heads *)
  files <~ _get_prediction_head_files load_dir ;;
  unpacked <~ unpack2 files ;;
  let '(_, ph_config_files) := unpacked in
  config_files <~ iter_path ph_config_files ;;
  prediction_heads <~ onnx_load_heads config_files [] [] ;;
  c <~ read_file (load_dir ++ ["model_config.json"]) ;;
  language <~ (match c with
               | ModelConfigJson (Some language) => ret language
               | ModelConfigJson None => raise (KeyError "language")
               | _ => raise (ValueError "model_config.json is not JSON")
               end) ;;
  ONNXBiAdaptiveModel_init onnx_session prediction_heads language device.

(** ** [BaseBiAdaptiveModel.load] *)

Inductive model_class : Type :=
| ClsBiAdaptiveModel
| ClsONNXBiAdaptiveModel
| ClsONNXWrapper.

(** The registry that [__init_subclass__] fills while the module is loaded. *)
Definition subclasses : gmap string model_class :=
  <["ONNXWrapper" := ClsONNXWrapper]>
    (<["ONNXBiAdaptiveModel" := ClsONNXBiAdaptiveModel]>
       (<["BiAdaptiveModel" := ClsBiAdaptiveModel]> ∅)).

(** The keyword arguments of a [load] call; [None] is an argument left out. *)
Record load_kwargs : Type := {
  kw_load_dir : option path;
  kw_device : option string;
  kw_strict : option bool;
  kw_lm1_name : option string;
  kw_lm2_name : option string;
  kw_processor : option (gmap string task)
}.

Inductive loaded_model : Type :=
| Trainable (m : BiAdaptiveModel)
| Frozen (m : ONNXBiAdaptiveModel).

Definition missing_argument (name : string) : exn :=
  TypeError ("load() missing 1 required positional argument: '" ++ name ++ "'").

(** [cls.subclasses[name].load] on the same keyword arguments *)
Definition class_load (name : string) (kwargs : load_kwargs) : M loaded_model :=
  match subclasses !! name with
  | None => raise (KeyError name)
  | Some c =>
      match kw_load_dir kwargs, kw_device kwargs with
      | None, _ => raise (missing_argument "load_dir")
      | _, None => raise (missing_argument "device")
      | Some load_dir, Some device =>
          match c with
          | ClsONNXBiAdaptiveModel =>
              m <~ ONNXBiAdaptiveModel_load load_dir device ;;
              ret (Frozen m)
          | ClsBiAdaptiveModel | ClsONNXWrapper =>
              m <~ BiAdaptiveModel_load name load_dir device
                     (default true (kw_strict kwargs))
                     (default "lm1" (kw_lm1_name kwargs))
                     (default "lm2" (kw_lm2_name kwargs))
                     (kw_processor kwargs) ;;
              ret (Trainable m)
          end
      end
  end.

Definition BaseBiAdaptiveModel_load (kwargs : load_kwargs) : M loaded_model :=
  load_dir <~ (match kw_load_dir kwargs with
               | Some d => ret d
               | None => raise (KeyError "load_dir")
               end) ;;
  marker <~ is_file (load_dir ++ ["model.onnx"]) ;;
  if marker then class_load "ONNXBiAdaptiveModel" kwargs
  else class_load "BiAdaptiveModel" kwargs.

(** [get_language] *)
Definition get_language (self : BiAdaptiveModel) : string * string :=
  (language (language_model1 self), language (language_model2 self)).

(** ** [verify_vocab_size] *)

(** [lm.model.resize_token_embeddings(new_num_tokens=None).num_embeddings]:
    called with [None], the resize hands back the embedding matrix the
    encoder has. *)
Variable num_embeddings : LanguageModel → nat.

(** The message of both assertions; [vocab_size] and [model_vocab_len] are
    the two numbers it prints. *)
Definition vocab_size_mismatch (vocab_size model_vocab_len : nat) : exn :=
  AssertionError
    ("Vocab size of tokenizer " ++ str_of_nat vocab_size ++
     " doesn't match with model " ++ str_of_nat model_vocab_len ++ ". " ++
     "If you added a custom vocabulary to the tokenizer, " ++
     "make sure to supply 'n_added_tokens' to LanguageModel.load() and BertStyleLM.load()").

Definition verify_vocab_size (self : BiAdaptiveModel)
    (vocab_size1 vocab_size2 : nat) : result unit :=
  let model1_vocab_len := num_embeddings (language_model1 self) in
  let msg := vocab_size_mismatch vocab_size1 model1_vocab_len in
  if negb (vocab_size1 =? model1_vocab_len) then Raise msg else
  let model2_vocab_len := num_embeddings (language_model2 self) in
  let msg := vocab_size_mismatch vocab_size1 model2_vocab_len in
  if negb (vocab_size2 =? model2_vocab_len) then Raise msg else
  Ok tt.

(** ** [convert_to_transformers], [convert_from_transformers] *)

(** [NotImplementedError] derives from [RuntimeError]: it is raised as the
    [RuntimeError] it is, the name of its class kept in front of the
    message. *)
Definition NotImplementedError (msg : string) : exn :=
  RuntimeError ("NotImplementedError: " ++ msg).


(** The attributes [layer_dims] and [model_type] of a head; [None] when the
    head has no such attribute. *)
Variable layer_dims : PredictionHead → option (list nat).
Variable model_type : PredictionHead → option string.




(** The parameters of [BiAdaptiveModel.__init__], which has no catch-all
    for further keywords. *)
Definition init_parameters : list string :=
  ["language_model1"; "language_model2"; "prediction_heads";
   "embeds_dropout_prob"; "device"; "lm1_output_types"; "lm2_output_types";
   "loss_aggregation_fn"].

(** Binding the keywords of a call [cls(k1=..., k2=...)]: the first keyword
    that names no parameter is refused, before the body of [__init__]
    runs. *)
Definition bind_keywords (params given : list string) : result unit :=
  match List.filter (fun k => negb (bool_decide (k ∈ params))) given with
  | [] => Ok tt
  | k :: _ =>
      Raise (TypeError ("__init__() got an unexpected keyword argument '" ++ k ++ "'"))
  end.

Definition convert_from_transformers
    (model_name_or_path1 model_name_or_path2 : path) (device : string)
    (task_type : string) (processor : option (gmap string task))
  : M BiAdaptiveModel :=
  lm1 <~ LanguageModel_load model_name_or_path1 ;;
  lm2 <~ LanguageModel_load model_name_or_path2 ;;
  bi_adaptive_model <~
    (if String.eqb task_type "text_similarity" then
       _ <~ lift (bind_keywords init_parameters
                    ["language_model1"; "language_model2"; "prediction_heads";
                     "embeds_dropout_prob"; "lm_output_types"; "device"]) ;;
       ret (BiAdaptiveModel_init lm1 lm2 [] (1 # 10)%Q device None None None)
     else
       raise (NotImplementedError
                ("Huggingface's transformer models of type " ++ task_type ++
                 " are not supported yet for BiAdaptive Models"))) ;;
  match processor with
  | Some tasks =>
      match connect_heads_with_processor bi_adaptive_model tasks true with
      | (model', Ok _) => ret model'
      | (_, Raise e) => raise e
      end
  | None => ret bi_adaptive_model
  end.

(** ** [ONNXBiAdaptiveModel.forward], [eval], [get_language] *)

(** The tensor runtime and the inference session:
    [numpy.ascontiguousarray(t.cpu().numpy())], [session.run(None, inputs)]
    and [torch.from_numpy(a).to(device)]. *)
Variable to_numpy : value → result value.
Variable onnx_run : onnx_session → gmap string value → result (list value).
Variable from_numpy : value → string → result value.

(** [res[0]] *)
Definition first_output (res : list value) : result value :=
  match res !! 0 with
  | Some r => Ok r
  | None => Raise (IndexError "list index out of range")
  end.

Definition ONNXBiAdaptiveModel_forward (self : ONNXBiAdaptiveModel)
    (kwargs : gmap string value) : result (list value) :=
  rbind (rbind (kwargs_get kwargs "input_ids") to_numpy) (fun input_ids =>
  rbind (rbind (kwargs_get kwargs "padding_mask") to_numpy) (fun padding_mask =>
  rbind (rbind (kwargs_get kwargs "segment_ids") to_numpy) (fun segment_ids =>
  let input_to_onnx : gmap string value :=
    <["segment_ids" := segment_ids]>
      (<["padding_mask" := padding_mask]> (<["input_ids" := input_ids]> ∅)) in
  rbind (onnx_run (onnx_session_of self) input_to_onnx) (fun res =>
  rbind (first_output res) (fun res0 =>
  rbind (from_numpy res0 (onnx_device self)) (fun t =>
  let logits := [t] in
  Ok logits)))))).

Definition ONNXBiAdaptiveModel_eval (self : ONNXBiAdaptiveModel) : bool := true.

Definition ONNXBiAdaptiveModel_get_language (self : ONNXBiAdaptiveModel)
  : string := onnx_language self.

(** ** [ONNXWrapper.forward] *)

(** [batch[i]] on the tuple of positional arguments. *)
Definition batch_item (batch : list value) (i : nat) : M value :=
  match batch !! i with
  | Some b => ret b
  | None => raise (IndexError "tuple index out of range")
  end.

Definition ONNXWrapper_forward (self : BiAdaptiveModel) (batch : list value)
  : M value :=
  input_ids <~ batch_item batch 0 ;;
  padding_mask <~ batch_item batch 1 ;;
  segment_ids <~ batch_item batch 2 ;;
  forward self (<["segment_ids" := segment_ids]>
                  (<["padding_mask" := padding_mask]>
                     (<["input_ids" := input_ids]> ∅))).

End Model.

Arguments value : clear implicits.
Arguments content : clear implicits.
Arguments node : clear implicits.
Arguments world : clear implicits.
Arguments M : clear implicits.
Arguments LanguageModel : clear implicits.
Arguments PredictionHead : clear implicits.
Arguments BiAdaptiveModel : clear implicits.
Arguments ONNXBiAdaptiveModel : clear implicits.
Arguments aggregation_fn : clear implicits.
Arguments loaded_model : clear implicits.

(** * Readings of a run

    Definitions used to state what a run did; none of them is code of the
    module. *)

(** The heads whose forward computation ran, in order. *)
Definition heads_forwarded (t : list event) : list nat :=
  omap (fun e => match e with HeadForward h => Some h | _ => None end) t.

(** The heads any of whose methods was called. *)
Definition heads_touched (t : list event) : list nat :=
  omap (fun e => match e with
                 | HeadForward h | HeadLogitsToLoss h | HeadLogitsToPreds h
                 | HeadFormattedPreds h | HeadPrepareLabels h => Some h
                 | _ => None
                 end) t.

(** The classes whose [load] was entered, in order. *)
Definition classes_loaded (t : list event) : list string :=
  omap (fun e => match e with ClassLoad c => Some c | _ => None end) t.

Section Readings.
Context {scalar ph_config lm_config : Type}.
Variable sadd : scalar → scalar → scalar.
Variable sint : Z → scalar.
Variable dropout_mask : Q → stream → nat → value scalar → value scalar.

Local Abbreviation Model := (BiAdaptiveModel scalar ph_config lm_config).
Local Abbreviation Head := (PredictionHead scalar ph_config).
Local Abbreviation World := (world ph_config lm_config).
Local Abbreviation Comp := (M ph_config lm_config).
Local Abbreviation Node := (node ph_config lm_config).
Local Abbreviation Kwargs := (gmap string (value scalar)).

(** *** [forward] *)

(** What head [h] returns when it is the [i]-th head of a pass that starts
    in [w] on the pooled outputs [p1], [p2]. *)
Definition head_logits (self : Model) (p1 p2 : value scalar) (w : World)
    (i : nat) (h : Head) : value scalar :=
  ph_call h
    (dropout_mask (dropout_p (dropout1 self)) LM1 (w_draws1 w + i) p1)
    (dropout_mask (dropout_p (dropout2 self)) LM2 (w_draws2 w + i) p2).

(** The state in which the loop over the heads starts. *)
Definition after_encoders (w : World) : World :=
  {| w_trace := (w_trace w ++ [EncoderForward LM1]) ++ [EncoderForward LM2];
     w_draws1 := w_draws1 w; w_draws2 := w_draws2 w; w_fs := w_fs w |}.

(** The state after the loop has served the triples [done]. *)
Definition after_heads (w : World) (done : list (Head * string * string))
  : World :=
  {| w_trace := w_trace w ++
       concat (imap (fun i t => [DropoutDraw LM1 (w_draws1 w + i);
                                 DropoutDraw LM2 (w_draws2 w + i);
                                 HeadForward (ph_id t.1.1)]) done);
     w_draws1 := w_draws1 w + length done;
     w_draws2 := w_draws2 w + length done;
     w_fs := w_fs w |}.

Definition both_per_sequence (t : Head * string * string) : Prop :=
  is_per_sequence t.1.2 = true ∧ is_per_sequence t.2 = true.

(** Every head has an entry in both mode lists, and the entries paired with
    heads are [per_sequence] or [per_sequence_continuous]. *)
Definition modes_cover_heads (self : Model) : Prop :=
  let n := length (prediction_heads self) in
  n ≤ length (lm1_output_types self) ∧
  n ≤ length (lm2_output_types self) ∧
  Forall (fun t => is_per_sequence t = true) (take n (lm1_output_types self)) ∧
  Forall (fun t => is_per_sequence t = true) (take n (lm2_output_types self)).

(** *** [logits_to_loss] *)

(** A head that [connect_heads_with_processor] has reached: it has the
    attribute [label_tensor_name]. *)
Definition connected (h : Head) : Prop := is_Some (label_tensor_name h).

(** The per-head losses, in head order: what each head makes of its logits. *)
Definition per_head_losses (heads : list Head) (logits : list (value scalar))
    (kwargs : gmap string (value scalar)) : list (value scalar) :=
  (fun hl => ph_logits_to_loss hl.1 (kw "logits" hl.2 kwargs)) <$> zip heads logits.

(** The element-wise sum, in the spec's words: sample [j] of the result is the
    sum over the heads of sample [j] of each head's loss vector (added in head
    order to Python's int [0]). *)
Definition elementwise_sum (n : nat) (vs : list (list scalar)) : list scalar :=
  (fun j => foldl sadd (sint 0) (omap (fun v => v !! j) vs)) <$> seq 0 n.

(** *** [formatted_preds] *)

(** The buckets after the loop has served [zipped], counting from [i]. *)
Fixpoint buckets_after (i : nat)
    (zipped : list (Head * value scalar * value scalar)) (kwargs : Kwargs)
    (buckets : list (list (value scalar))) : list (list (value scalar)) :=
  match zipped with
  | [] => buckets
  | (h, p, l) :: rest =>
      buckets_after (S i) rest kwargs
        (alter (fun b => b ++ [ph_formatted_preds h (kw "logits" l (kw "preds" p kwargs))])
               i buckets)
  end.

(** *** Loading *)

(** A computation that calls no collaborator leaves the trace as it is. *)
Definition keeps_trace {A} (c : Comp A) : Prop :=
  ∀ w : World, w_trace (c w).1 = w_trace w.

(** The head config files of a directory with entries [children], as
    [_get_prediction_head_files] returns them. *)
Definition head_config_files (load_dir : path) (children : gmap string Node)
  : list path :=
  sort_paths
    (map (fun f => load_dir ++ [f])
         (List.filter (fun f => str_contains "config.json" f &&
                                str_contains "prediction_head" f)
                      (map_to_list children).*1)).

(** Whether [load_dir / "model.onnx"] is a regular file. *)
Definition has_onnx_marker (w : World) (load_dir : path) : bool :=
  match fs_lookup (w_fs w) (load_dir ++ ["model.onnx"]) with
  | Some (File _) => true
  | _ => false
  end.

(** *** [connect_heads_with_processor] *)

(** The head after a completed iteration of the loop, for task entry [t]. *)
Definition bound_to (t : task) (h : Head) : Head :=
  set_metric (set_label_list (set_label_tensor_name h (t_label_tensor_name t))
                             (t_label_list t))
             (t_metric t).

(** The head with the three attributes of its task's entry, if the table has
    one. *)
Definition bind_head (tasks : gmap string task) (h : Head) : Head :=
  match tasks !! task_name h with
  | Some t => bound_to t h
  | None => h
  end.

(** A task entry on which an iteration completes: its label list is a list,
    and a non-empty one when labels are required. *)
Definition task_accepted (require_labels : bool) (t : task) : bool :=
  match t_label_list t with
  | Some [] => negb require_labels
  | Some (_ :: _) => true
  | None => false
  end.

Definition head_accepted (tasks : gmap string task) (require_labels : bool)
    (h : Head) : Prop :=
  ∃ t, tasks !! task_name h = Some t ∧ task_accepted require_labels t = true.

(** *** Effects *)

(** The state after the collaborator calls [es] were made, in order. *)
Definition log_events (w : World) (es : list event) : World :=
  {| w_trace := w_trace w ++ es; w_draws1 := w_draws1 w;
     w_draws2 := w_draws2 w; w_fs := w_fs w |}.

(** A computation that leaves what is found at path [q] as it is. *)
Definition keeps_path {A} (q : path) (c : Comp A) : Prop :=
  ∀ w : World, fs_lookup (w_fs (c w).1) q = fs_lookup (w_fs w) q.

(** [ws] is [w] as seen from directory [d]: the root of [ws] is what [w]
    has at [d]. *)
Definition seen_from (d : path) (w ws : World) : Prop :=
  fs_lookup (w_fs w) d = Some (w_fs ws).

(** Whenever [c'] returns in a state seen from [d], [c] returns a related
    value, in a state from which the final state of [c'] is seen. *)
Definition simulates {A B} (d : path) (rel : A → B → Prop)
    (c : Comp A) (c' : Comp B) : Prop :=
  ∀ w ws ws' b,
    seen_from d w ws → c' ws = (ws', Ok b) →
    ∃ w' a, c w = (w', Ok a) ∧ seen_from d w' ws' ∧ rel a b.

(** The names of the files that [save] writes for [n] heads. *)
Definition head_file_names (n : nat) : list string :=
  i ← seq 0 n;
  [("prediction_head_" ++ str_of_nat i ++ ".bin")%string;
   ("prediction_head_" ++ str_of_nat i ++ "_config.json")%string].

(** What the one-head branch of [formatted_preds] keeps of the head's
    result: a list as it is, a dict with the key [predictions] as the only
    element, nothing of anything else. *)
Definition as_prediction_list (preds : value scalar) : value scalar :=
  match preds with
  | VList items => VList items
  | VDict kvs =>
      if bool_decide (is_Some (assoc_lookup "predictions" kvs))
      then VList [preds] else VList []
  | _ => VList []
  end.

End Readings.

(** * Concrete collaborators, used to run the model on examples *)

Module Demo.

(** Tensors over the integers; configurations are names. *)
Definition val : Type := value Z.
Definition head : Type := PredictionHead Z string.
Definition encoder : Type := LanguageModel Z string.
Definition model : Type := BiAdaptiveModel Z string string.
Definition state : Type := world string string.

(** Dropout in evaluation mode. *)
Definition no_dropout (p : Q) (s : stream) (k : nat) (x : val) : val := x.

(** Dropout that tags its input with the number of the draw. *)
Definition tagging_dropout (p : Q) (s : stream) (k : nat) (x : val) : val :=
  VTuple [VInt (Z.of_nat k); x].

Definition mk_encoder (lang : string) (pooled : list Z) : encoder :=
  {| lm_name := lang; language := lang; get_output_dims := length pooled;
     lm_call := fun _ => (VTensor pooled, VNone);
     lm_formatted_preds := fun kwargs =>
       VTuple [VStr lang; default VNone (kwargs !! "logits")];
     lm_generate_config := lang |}.

Definition enc_a : encoder := mk_encoder "en" [1; 2]%Z.
Definition enc_b : encoder := mk_encoder "de" [3; 4]%Z.

(** Head number [i]: every method tags its output with [i].  Its loss is the
    tensor found under [logits]. *)
Definition mk_head (i : nat) (connected : bool)
    (merge : option (val → val)) : head :=
  {| ph_id := i;
     task_name := ("task" ++ str_of_nat i)%string;
     ph_output_type := "per_sequence";
     label_tensor_name := if connected then Some "label_ids" else None;
     label_list := None;
     metric := None;
     ph_call := fun o1 o2 => VTuple [VInt (Z.of_nat i); o1; o2];
     ph_logits_to_loss := fun kwargs => default VNone (kwargs !! "logits");
     ph_logits_to_preds := fun kwargs => VInt (Z.of_nat i);
     ph_formatted_preds := fun kwargs =>
       VTuple [VInt (Z.of_nat i); default VNone (kwargs !! "preds")];
     ph_prepare_labels := fun kwargs => VInt (Z.of_nat i);
     merge_formatted_preds := merge;
     ph_generate_config := ("task" ++ str_of_nat i)%string |}.

Definition head_from_config (cfg : string) : head :=
  {| ph_id := 0;
     task_name := cfg;
     ph_output_type := "per_sequence";
     label_tensor_name := None;
     label_list := None;
     metric := None;
     ph_call := fun o1 o2 => VNone;
     ph_logits_to_loss := fun kwargs => VNone;
     ph_logits_to_preds := fun kwargs => VNone;
     ph_formatted_preds := fun kwargs => VNone;
     ph_prepare_labels := fun kwargs => VNone;
     merge_formatted_preds := None;
     ph_generate_config := cfg |}.

Definition encoder_from_config (cfg : string) : encoder := mk_encoder cfg [].

Definition mk_model (heads : list head)
    (types1 types2 : option output_types_arg) : model :=
  BiAdaptiveModel_init Z.add id enc_a enc_b heads (1 # 10)%Q "cpu"
                       types1 types2 None.

(** A fresh state: nothing has run, the root directory is empty. *)
Definition w0 : state :=
  {| w_trace := []; w_draws1 := 0; w_draws2 := 0; w_fs := Dir ∅ |}.

(** A stand-in for [farm.utils.stack]: the collected predictions are already
    grouped by head. *)
Definition stack_id (v : val) : result (list val) := py_iter v.

(** Two connected heads, one head that was never connected, and one that
    exposes [merge_formatted_preds]. *)
Definition h0 : head := mk_head 0 true None.
Definition h1 : head := mk_head 1 true None.
Definition h1_unconnected : head := mk_head 1 false None.
Definition h1_merging : head :=
  mk_head 1 true (Some (fun buckets => VTuple [VStr "merged"; buckets])).

(** Keyword arguments for [formatted_preds] with two heads: one share of
    collected predictions per head, one basket holding one sample. *)
Definition two_head_kwargs : gmap string val :=
  <["baskets" := VList [VObject [("samples", VList [VInt 7])]]]>
    (<["preds" := VList [VStr "p0"; VStr "p1"]]> ∅).

(** Eleven heads, numbered 0 to 10. *)
Definition eleven_heads : list head :=
  (fun i => mk_head i true None) <$> seq 0 11.

(** Two heads with one valid mode each per encoder, and the same heads with
    [per_token] as the second head's mode for encoder 1. *)
Definition two_head_model : model :=
  mk_model [h0; h1]
    (Some (TypeList ["per_sequence"; "per_sequence_continuous"]))
    (Some (TypeList ["per_sequence"; "per_sequence"])).

Definition per_token_model : model :=
  mk_model [h0; h1]
    (Some (TypeList ["per_sequence"; "per_token"]))
    (Some (TypeList ["per_sequence"; "per_sequence"])).

Definition load_out (device : string) : M string string model :=
  BiAdaptiveModel_load Z.add id encoder_from_config head_from_config
    "BiAdaptiveModel" ["out"] device true "lm1" "lm2" None.

(** [model.save(out)] followed by [BiAdaptiveModel.load(out, "cpu")]. *)
Definition save_then_load (m : model) : M string string model :=
  bind (save m ["out"]) (fun _ => load_out "cpu").

(** A directory [out] that holds [model.onnx] and two head config files. *)
Definition frozen_dir : node string string :=
  Dir (<["out" := Dir (<["model.onnx" := File OnnxGraph]>
                       (<["prediction_head_0_config.json" := File (HeadConfigJson "task0")]>
                       (<["prediction_head_1_config.json" := File (HeadConfigJson "task1")]>
                       (<["model_config.json" := File (ModelConfigJson (Some "en"))]> ∅))))]> ∅).

Definition w_frozen : state :=
  {| w_trace := []; w_draws1 := 0; w_draws2 := 0; w_fs := frozen_dir |}.

(** A task table for the tasks of heads 0 and 1. *)
Definition two_tasks : gmap string task :=
  <["task0" := {| t_label_tensor_name := "label_ids";
                  t_label_list := Some ["yes"; "no"];
                  t_metric := "acc" |}]>
    (<["task1" := {| t_label_tensor_name := "other_label_ids";
                     t_label_list := Some ["a"; "b"; "c"];
                     t_metric := "f1_macro" |}]> ∅).

(** Two heads that no processor has been connected to yet. *)
Definition unconnected_model : model :=
  mk_model [mk_head 0 false None; h1_unconnected] None None.

Definition load_out_kwargs : load_kwargs :=
  {| kw_load_dir := Some ["out"]; kw_device := Some "cpu"; kw_strict := None;
     kw_lm1_name := None; kw_lm2_name := None; kw_processor := None |}.

(** One head, and the state in which the two-head model has been saved to
    [out]. *)
Definition one_head_model : model := mk_model [h0] None None.

Definition w_saved_two : state := (save two_head_model ["out"] w0).1.

Definition load_out_with (tasks : gmap string task) : M string string model :=
  BiAdaptiveModel_load Z.add id encoder_from_config head_from_config
    "BiAdaptiveModel" ["out"] "cpu" true "lm1" "lm2" (Some tasks).

(** Task tables: one that knows [task0] only, one whose [task1] has an empty
    label list, and one with other attributes for both tasks. *)
Definition task0_only : gmap string task :=
  <["task0" := {| t_label_tensor_name := "label_ids";
                  t_label_list := Some ["yes"; "no"];
                  t_metric := "acc" |}]> ∅.

Definition tasks_without_labels : gmap string task :=
  <["task0" := {| t_label_tensor_name := "label_ids";
                  t_label_list := Some ["yes"; "no"];
                  t_metric := "acc" |}]>
    (<["task1" := {| t_label_tensor_name := "other_label_ids";
                     t_label_list := Some [];
                     t_metric := "f1_macro" |}]> ∅).

Definition other_tasks : gmap string task :=
  <["task0" := {| t_label_tensor_name := "ids";
                  t_label_list := Some ["x"];
                  t_metric := "mcc" |}]>
    (<["task1" := {| t_label_tensor_name := "ids";
                     t_label_list := Some ["y"];
                     t_metric := "mcc" |}]> ∅).

(** Three heads, two modes for encoder 1 and three for encoder 2. *)
Definition three_head_model : model :=
  mk_model [h0; h1; mk_head 2 true None]
    (Some (TypeList ["per_sequence"; "per_sequence_continuous"]))
    (Some (TypeList ["per_sequence"; "per_sequence"; "per_sequence"])).

(** Collected predictions of two batches, each a tuple whose first component
    is the list of that batch's predictions. *)
Definition collected_kwargs : gmap string val :=
  <["preds" := VList [VTuple [VList [VInt 1; VInt 2]; VStr "rest"];
                      VTuple [VList [VInt 3]; VStr "rest"]]]> ∅.

(** A frozen model with two heads over a session that answers with two
    outputs, the first being its [input_ids]. *)
Definition frozen_model : ONNXBiAdaptiveModel Z string :=
  {| onnx_session_of := InferenceSession ["out"; "model.onnx"];
     onnx_prediction_heads := [h0; h1];
     onnx_device := "cpu";
     onnx_language := "en" |}.

Definition tensor_to_numpy (v : val) : result val :=
  match v with
  | VTensor _ => Ok v
  | _ => Raise (AttributeError "cpu")
  end.

Definition session_run (session : onnx_session) (inputs : gmap string val)
  : result (list val) :=
  Ok [default VNone (inputs !! "input_ids"); VNone].

Definition tensor_from_numpy (a : val) (device : string) : result val := Ok a.

Definition onnx_kwargs : gmap string val :=
  <["input_ids" := VTensor [101; 7; 102]%Z]>
    (<["padding_mask" := VTensor [1; 1; 1]%Z]>
       (<["segment_ids" := VTensor [0; 0; 0]%Z]> ∅)).

End Demo.

(** * Properties *)

(** ** Facts about [zip3] *)

Section Zip3.
Context {A B C : Type}.
Implicit Types (la : list A) (lb : list B) (lc : list C).

Lemma zip3_take la lb lc :
  zip3 la lb lc = zip3 la (take (length la) lb) (take (length la) lc).
Proof.
  revert lb lc. induction la as [|a la IH]; intros [|b lb] [|c lc]; simpl;
    try reflexivity.
  by rewrite <- IH.
Qed.

Lemma zip3_firsts la lb lc :
  length la ≤ length lb → length la ≤ length lc →
  (fun t => t.1.1) <$> zip3 la lb lc = la.
Proof.
  revert lb lc. induction la as [|a la IH]; intros [|b lb] [|c lc]; simpl;
    intros H1 H2; try reflexivity; try lia.
  f_equal. apply IH; lia.
Qed.

Lemma zip3_Forall (P : B → Prop) (Q : C → Prop) la lb lc :
  Forall P lb → Forall Q lc →
  Forall (fun t => P t.1.2 ∧ Q t.2) (zip3 la lb lc).
Proof.
  intros Hb. revert la lc. induction Hb as [|b lb Pb _ IH]; intros [|a la] lc Hc;
    simpl; try constructor.
  destruct Hc as [|c lc Qc Hc]; constructor; [done | by apply IH].
Qed.

Lemma zip3_split la lb lc k a b c :
  la !! k = Some a → lb !! k = Some b → lc !! k = Some c →
  zip3 la lb lc =
  zip3 (take k la) (take k lb) (take k lc) ++
  (a, b, c) :: zip3 (drop (S k) la) (drop (S k) lb) (drop (S k) lc).
Proof.
  revert la lb lc.
  induction k as [|k IH]; intros [|a' la] [|b' lb] [|c' lc] Ha Hb Hc;
    simplify_eq/=; try reflexivity.
  f_equal. by apply IH.
Qed.

Lemma zip3_take_min la lb lc :
  let m := length la `min` (length lb `min` length lc) in
  zip3 la lb lc = zip3 (take m la) (take m lb) (take m lc).
Proof.
  revert lb lc. induction la as [|a la IH]; intros [|b lb] [|c lc]; simpl;
    try reflexivity.
  f_equal. apply IH.
Qed.

Lemma zip3_firsts_replicate la lb (c : C) :
  (fun t => t.1.1) <$> zip3 la lb (replicate (length la) c) =
  take (length lb) la.
Proof.
  revert lb. induction la as [|a la IH]; intros [|b lb]; simpl; try done.
  f_equal. apply IH.
Qed.

Lemma zip3_lookup_eq la lb lc i :
  zip3 la lb lc !! i =
  match la !! i, lb !! i, lc !! i with
  | Some a, Some b, Some c => Some (a, b, c)
  | _, _, _ => None
  end.
Proof.
  revert la lb lc. induction i as [|i IH]; intros [|a la] [|b lb] [|c lc];
    simpl; try reflexivity; try apply IH; by repeat case_match.
Qed.

End Zip3.

Section Forward.
Context {scalar ph_config lm_config : Type}.
Variable dropout_mask : Q → stream → nat → value scalar → value scalar.

Local Abbreviation Model := (BiAdaptiveModel scalar ph_config lm_config).
Local Abbreviation Head := (PredictionHead scalar ph_config).
Local Abbreviation World := (world ph_config lm_config).

Lemma forward_heads_app (self : Model) (p1 p2 : value scalar)
    (done rest : list (Head * string * string)) :
  Forall both_per_sequence done →
  ∀ acc w,
    forward_heads dropout_mask self p1 p2 (done ++ rest) acc w =
    forward_heads dropout_mask self p1 p2 rest
      (acc ++ imap (fun i t => head_logits dropout_mask self p1 p2 w i t.1.1) done)
      (after_heads w done).
Proof.
  induction 1 as [|[[h a] b] done [Ha Hb] _ IH]; intros acc w.
  - simpl. rewrite app_nil_r. f_equal.
    destruct w; unfold after_heads; simpl.
    by rewrite app_nil_r, !Nat.add_0_r.
  - simpl in Ha, Hb. cbn [app forward_heads]. rewrite Ha, Hb.
    unfold bind at 1 2 3. cbn [dropout_call emit w_trace w_draws1 w_draws2 w_fs].
    rewrite IH. f_equal.
    + rewrite <- app_assoc. f_equal. cbn [imap app].
      unfold head_logits at 2. cbn [w_draws1 w_draws2 fst snd].
      rewrite !Nat.add_0_r. f_equal.
      apply imap_ext. intros i t _. unfold head_logits; simpl.
      by rewrite !Nat.add_succ_r.
    + unfold after_heads; cbn [w_trace w_draws1 w_draws2 w_fs length imap concat].
      rewrite !Nat.add_0_r, !Nat.add_succ_r. f_equal.
      rewrite <- !app_assoc. cbn [app fst]. do 5 f_equal.
      apply imap_ext. intros i t _. simpl.
      by rewrite !Nat.add_succ_r.
Qed.

Lemma heads_forwarded_app (t1 t2 : list event) :
  heads_forwarded (t1 ++ t2) = heads_forwarded t1 ++ heads_forwarded t2.
Proof. apply omap_app. Qed.

Lemma heads_forwarded_loop (d1 d2 : nat) (done : list (Head * string * string)) :
  heads_forwarded
    (concat (imap (fun i t => [DropoutDraw LM1 (d1 + i); DropoutDraw LM2 (d2 + i);
                               HeadForward (ph_id t.1.1)]) done)) =
  (fun t => ph_id t.1.1) <$> done.
Proof.
  revert d1 d2. induction done as [|t done IH]; intros d1 d2; [done|].
  cbn [imap concat fmap list_fmap]. rewrite heads_forwarded_app. cbn. f_equal.
  rewrite <- (IH (S d1) (S d2)). do 2 f_equal.
  apply imap_ext. intros i x _. simpl. by rewrite !Nat.add_succ_r.
Qed.

Lemma heads_forwarded_after (w : World) (done : list (Head * string * string)) :
  heads_forwarded (w_trace (after_heads w done)) =
  heads_forwarded (w_trace w) ++ ((fun t => ph_id t.1.1) <$> done).
Proof.
  unfold after_heads; cbn [w_trace].
  by rewrite heads_forwarded_app, heads_forwarded_loop.
Qed.

Lemma forward_lm_run (self : Model) (kwargs : gmap string (value scalar)) (w : World) :
  forward_lm self kwargs w =
  (after_encoders w,
   Ok ((lm_call (language_model1 self) kwargs).1,
       (lm_call (language_model2 self) kwargs).1)).
Proof.
  unfold forward_lm, bind, emit, ret.
  destruct (lm_call (language_model1 self) kwargs) as [p1 h1].
  destruct (lm_call (language_model2 self) kwargs) as [p2 h2].
  reflexivity.
Qed.

(** C1 (amended).  When each head is paired with a [per_sequence] or
    [per_sequence_continuous] entry in both mode lists, [forward] returns a
    list.  With N >= 1 heads it has exactly N entries, the i-th being what
    head i returns on the two dropped-out pooled outputs, and the heads ran
    in construction order.  With no head it has exactly one entry: the
    2-tuple of the raw pooled outputs of the two encoders. *)
Theorem forward_one_entry_per_head (self : Model)
    (kwargs : gmap string (value scalar)) (w : World) :
  modes_cover_heads self →
  let p1 := (lm_call (language_model1 self) kwargs).1 in
  let p2 := (lm_call (language_model2 self) kwargs).1 in
  ∃ w' entries,
    forward dropout_mask self kwargs w = (w', Ok (VList entries)) ∧
    (prediction_heads self = [] → entries = [VTuple [p1; p2]]) ∧
    (prediction_heads self ≠ [] →
       length entries = length (prediction_heads self) ∧
       ∀ i h, prediction_heads self !! i = Some h →
              entries !! i = Some (head_logits dropout_mask self p1 p2 w i h)) ∧
    heads_forwarded (w_trace w') =
      heads_forwarded (w_trace w) ++ map ph_id (prediction_heads self).
Proof.
  intros (Hl1 & Hl2 & Hv1 & Hv2) p1 p2.
  unfold forward, bind. rewrite forward_lm_run. fold p1 p2.
  destruct (prediction_heads self) as [|h0 hs] eqn:Hheads.
  - cbn. eexists _, _. split; [reflexivity|].
    split; [done|]. split; [done|].
    cbn [after_encoders w_trace].
    by rewrite !heads_forwarded_app, !app_nil_r.
  - set (heads := h0 :: hs) in *.
    replace (0 <? length heads) with true by done.
    rewrite zip3_take.
    set (zipped := zip3 heads _ _).
    assert (Hall : Forall both_per_sequence zipped).
    { apply (zip3_Forall (fun t => is_per_sequence t = true)
                         (fun t => is_per_sequence t = true)); assumption. }
    assert (Hfst : (fun t => t.1.1) <$> zipped = heads).
    { apply zip3_firsts; rewrite length_take; lia. }
    rewrite <- (app_nil_r zipped), (forward_heads_app _ _ _ _ [] Hall).
    cbn [forward_heads ret app].
    eexists _, _. split; [reflexivity|].
    split; [done|]. split.
    + intros _. split.
      * by rewrite length_imap, <- Hfst, length_fmap.
      * intros i h Hi. rewrite list_lookup_imap.
        assert (Hz : (fun t => t.1.1) <$> zipped !! i = Some h).
        { by rewrite <- list_lookup_fmap, Hfst. }
        destruct (zipped !! i) as [t|]; simplify_eq/=. reflexivity.
    + rewrite heads_forwarded_after. cbn [after_encoders w_trace].
      rewrite !heads_forwarded_app, !app_nil_r. cbn [heads_forwarded omap app].
      change (map ph_id heads) with (ph_id <$> heads).
      rewrite <- Hfst, <- list_fmap_compose. reflexivity.
Qed.

(** C6 (amended).  Let entry [k] be the first one, in the order of the heads,
    whose mode for either encoder is neither [per_sequence] nor
    [per_sequence_continuous].  Then [forward] fails with the error that
    names the offending mode (that of encoder 1 if it is unknown, else that
    of encoder 2), and by then the heads before [k] have run their forward
    computation, in order, and no other head has. *)
Theorem forward_fails_at_first_unknown_mode (self : Model)
    (kwargs : gmap string (value scalar)) (w : World)
    (k : nat) (h : Head) (a b : string) :
  prediction_heads self !! k = Some h →
  lm1_output_types self !! k = Some a →
  lm2_output_types self !! k = Some b →
  Forall (fun t => is_per_sequence t = true) (take k (lm1_output_types self)) →
  Forall (fun t => is_per_sequence t = true) (take k (lm2_output_types self)) →
  is_per_sequence a = false ∨ is_per_sequence b = false →
  ∃ w',
    forward dropout_mask self kwargs w =
      (w', Raise (unknown_extraction_strategy (if is_per_sequence a then b else a))) ∧
    heads_forwarded (w_trace w') =
      heads_forwarded (w_trace w) ++ map ph_id (take k (prediction_heads self)).
Proof.
  intros Hh Ha Hb Hv1 Hv2 Hbad.
  unfold forward, bind. rewrite forward_lm_run.
  set (p1 := (lm_call (language_model1 self) kwargs).1).
  set (p2 := (lm_call (language_model2 self) kwargs).1).
  assert (Hlen : (0 <? length (prediction_heads self)) = true).
  { apply Nat.ltb_lt. apply lookup_lt_Some in Hh. lia. }
  rewrite Hlen, (zip3_split _ _ _ k h a b Hh Ha Hb).
  set (done := zip3 (take k _) (take k _) (take k _)).
  assert (Hall : Forall both_per_sequence done).
  { apply (zip3_Forall (fun t => is_per_sequence t = true)
                       (fun t => is_per_sequence t = true)); assumption. }
  assert (Hfst : (fun t => t.1.1) <$> done = take k (prediction_heads self)).
  { apply lookup_lt_Some in Hh, Ha, Hb.
    apply zip3_firsts; rewrite !length_take; lia. }
  rewrite (forward_heads_app _ _ _ _ _ Hall).
  assert (Htrace : heads_forwarded (w_trace (after_heads (after_encoders w) done)) =
                   heads_forwarded (w_trace w) ++
                   map ph_id (take k (prediction_heads self))).
  { rewrite heads_forwarded_after. cbn [after_encoders w_trace].
    rewrite !heads_forwarded_app, !app_nil_r. cbn [heads_forwarded omap app].
    change (map ph_id (take k (prediction_heads self)))
      with (ph_id <$> take k (prediction_heads self)).
    by rewrite <- Hfst, <- list_fmap_compose. }
  cbn [forward_heads]. unfold bind at 1.
  destruct (is_per_sequence a) eqn:Ea.
  - destruct Hbad as [?|Eb]; [done|]. rewrite Eb.
    unfold bind, dropout_call, raise. cbn.
    eexists. split; [reflexivity|]. cbn [w_trace].
    rewrite heads_forwarded_app, app_nil_r. exact Htrace.
  - unfold bind, raise. eexists. split; [reflexivity|]. exact Htrace.
Qed.

(** X2.  With both mode lists at their default (one [per_sequence] entry) and
    at least one head, [forward] serves the first head only: the [zip] ends
    with the shortest of its sequences. *)
Theorem forward_default_modes_first_head_only (self : Model)
    (kwargs : gmap string (value scalar)) (w : World)
    (h0 : Head) (rest : list Head) :
  prediction_heads self = h0 :: rest →
  lm1_output_types self = ["per_sequence"] →
  lm2_output_types self = ["per_sequence"] →
  let p1 := (lm_call (language_model1 self) kwargs).1 in
  let p2 := (lm_call (language_model2 self) kwargs).1 in
  ∃ w',
    forward dropout_mask self kwargs w =
      (w', Ok (VList [head_logits dropout_mask self p1 p2 w 0 h0])) ∧
    heads_forwarded (w_trace w') = heads_forwarded (w_trace w) ++ [ph_id h0].
Proof.
  intros Hheads H1 H2 p1 p2.
  unfold forward, bind. rewrite forward_lm_run, Hheads, H1, H2. fold p1 p2.
  unfold head_logits. rewrite !Nat.add_0_r.
  destruct rest as [|h1 rest]; cbn;
    (eexists; split; [reflexivity|]); cbn [w_trace];
    rewrite !heads_forwarded_app; cbn; by rewrite !app_nil_r.
Qed.

End Forward.

(** ** Construction and loss *)

Section Loss.
Context {scalar ph_config lm_config : Type}.
Variable sadd : scalar → scalar → scalar.
Variable sint : Z → scalar.

Local Abbreviation Model := (BiAdaptiveModel scalar ph_config lm_config).
Local Abbreviation Head := (PredictionHead scalar ph_config).
Local Abbreviation World := (world ph_config lm_config).

(** C2 (amended).  With the extraction-mode arguments left at their defaults
    a new model holds exactly one [per_sequence] entry for each encoder,
    whatever the number of heads; so the two mode lists are as long as the
    list of heads exactly when there is one head. *)
Theorem init_default_modes (lm1 lm2 : LanguageModel scalar lm_config)
    (heads : list Head) (p : Q) (dev : string)
    (agg : option (aggregation_fn scalar)) :
  let m := BiAdaptiveModel_init sadd sint lm1 lm2 heads p dev None None agg in
  prediction_heads m = heads ∧
  lm1_output_types m = ["per_sequence"] ∧
  lm2_output_types m = ["per_sequence"] ∧
  (length (lm1_output_types m) = length (prediction_heads m) ∧
   length (lm2_output_types m) = length (prediction_heads m)
   ↔ length heads = 1).
Proof.
  cbn. repeat split; try done; intros; lia.
Qed.

Lemma loss_loop_connected (zipped : list (Head * value scalar))
    (kwargs : gmap string (value scalar)) :
  Forall (fun hl => connected hl.1) zipped →
  ∀ acc (w : World),
    (logits_to_loss_per_head_loop zipped kwargs acc w).2 =
    Ok (acc ++ ((fun hl => ph_logits_to_loss hl.1 (kw "logits" hl.2 kwargs)) <$> zipped)).
Proof.
  induction 1 as [|[h l] zipped [name Hname] _ IH]; intros acc w.
  - cbn. by rewrite app_nil_r.
  - cbn [logits_to_loss_per_head_loop]. simpl in Hname. rewrite Hname.
    unfold bind at 1 2. cbn [ret emit]. rewrite IH.
    by rewrite <- app_assoc.
Qed.

Lemma py_sum_from_tensors (vs : list (list scalar)) :
  ∀ acc, Forall (fun v => length v = length acc) vs →
  py_sum_from sadd sint (VTensor acc) (VTensor <$> vs) =
  Ok (VTensor (foldl (zip_with sadd) acc vs)).
Proof.
  induction vs as [|v vs IH]; intros acc Hlen; [done|].
  apply Forall_cons in Hlen as [Hv Hvs].
  cbn [fmap list_fmap py_sum_from py_add]. rewrite <- Hv, Nat.eqb_refl.
  apply IH. rewrite length_zip_with, Hv, Nat.min_id. exact Hvs.
Qed.

Lemma foldl_zip_with_lookup (vs : list (list scalar)) :
  ∀ acc j x, Forall (fun v => length v = length acc) vs →
  acc !! j = Some x →
  foldl (zip_with sadd) acc vs !! j =
  Some (foldl sadd x (omap (fun v => v !! j) vs)).
Proof.
  induction vs as [|v vs IH]; intros acc j x Hlen Hx; [done|].
  apply Forall_cons in Hlen as [Hv Hvs].
  assert (is_Some (v !! j)) as [y Hy].
  { apply lookup_lt_is_Some. rewrite Hv. by eapply lookup_lt_Some. }
  cbn [foldl omap list_omap]. rewrite Hy. cbn [foldl].
  apply IH.
  - rewrite length_zip_with, Hv, Nat.min_id. exact Hvs.
  - rewrite lookup_zip_with, Hx, Hy. reflexivity.
Qed.

Lemma foldl_zip_with_length (vs : list (list scalar)) :
  ∀ acc, Forall (fun v => length v = length acc) vs →
  length (foldl (zip_with sadd) acc vs) = length acc.
Proof.
  induction vs as [|v vs IH]; intros acc Hlen; [done|].
  apply Forall_cons in Hlen as [Hv Hvs]. cbn [foldl].
  rewrite IH; rewrite length_zip_with, Hv, Nat.min_id; done.
Qed.

(** Python's [sum] on same-length tensors is the element-wise sum. *)
Lemma py_sum_elementwise (n : nat) (vs : list (list scalar)) :
  vs ≠ [] → Forall (fun v => length v = n) vs →
  py_sum sadd sint (VTensor <$> vs) = Ok (VTensor (elementwise_sum sadd sint n vs)).
Proof.
  intros Hne Hlen. destruct vs as [|v vs]; [done|].
  apply Forall_cons in Hlen as [Hv Hvs].
  unfold py_sum. cbn [fmap list_fmap py_sum_from py_add].
  assert (Hvs' : Forall (fun u => length u = length (map (sadd (sint 0)) v)) vs).
  { rewrite length_map, Hv. exact Hvs. }
  change (list_fmap _ _ VTensor vs) with (VTensor <$> vs).
  rewrite py_sum_from_tensors by exact Hvs'. do 2 f_equal.
  apply (list_eq_same_length _ _ n).
  - unfold elementwise_sum. by rewrite length_fmap, length_seq.
  - by rewrite foldl_zip_with_length, length_map.
  - intros j x y Hj Hx Hy.
    assert (is_Some (v !! j)) as [z Hz] by (apply lookup_lt_is_Some; lia).
    rewrite (foldl_zip_with_lookup vs _ j (sadd (sint 0) z)) in Hx.
    + unfold elementwise_sum in Hy.
      rewrite list_lookup_fmap, lookup_seq_lt in Hy by done.
      cbn in Hy. rewrite Hz in Hy. cbn in Hy. congruence.
    + exact Hvs'.
    + change (map (sadd (sint 0)) v) with (sadd (sint 0) <$> v).
      by rewrite list_lookup_fmap, Hz.
Qed.

(** C3.  A model built without [loss_aggregation_fn], with at least one head,
    all heads connected, and one logits entry per head: if the heads' losses
    are the vectors [vs], each with one entry for each of the [n] samples,
    then [logits_to_loss] returns their element-wise sum. *)
Theorem logits_to_loss_default_sum (lm1 lm2 : LanguageModel scalar lm_config)
    (heads : list Head) (p : Q) (dev : string)
    (types1 types2 : option output_types_arg)
    (logits : list (value scalar)) (global_step : value scalar)
    (kwargs : gmap string (value scalar)) (w : World)
    (n : nat) (vs : list (list scalar)) :
  let m := BiAdaptiveModel_init sadd sint lm1 lm2 heads p dev types1 types2 None in
  heads ≠ [] →
  length logits = length heads →
  Forall connected heads →
  per_head_losses heads logits kwargs = VTensor <$> vs →
  Forall (fun v => length v = n) vs →
  (logits_to_loss m logits global_step kwargs w).2 =
    Ok (VTensor (elementwise_sum sadd sint n vs)).
Proof.
  intros m Hne Hlen Hconn Hlosses Hn.
  unfold logits_to_loss, logits_to_loss_per_head, bind.
  pose proof (loss_loop_connected (zip (prediction_heads m) logits) kwargs) as Hloop.
  specialize (Hloop ltac:(
    apply Forall_forall; intros [h l] Hin; simpl;
    apply elem_of_zip_l in Hin;
    by apply (proj1 (Forall_forall _ _) Hconn)) [] w).
  destruct (logits_to_loss_per_head_loop _ _ _ _) as [w' r]. simpl in Hloop.
  subst r. cbn [app lift snd].
  change (loss_aggregation_fn m) with (loss_per_head_sum sadd sint).
  unfold loss_per_head_sum.
  unfold per_head_losses in Hlosses. cbn [m BiAdaptiveModel_init prediction_heads].
  rewrite Hlosses. apply py_sum_elementwise; [|done].
  intros ->. destruct heads, logits; simplify_eq/=.
Qed.

Lemma loss_loop_unconnected (kwargs : gmap string (value scalar)) (heads : list Head) :
  ∀ (logits : list (value scalar)) (k : nat) (h : Head) acc (w : World),
    heads !! k = Some h → label_tensor_name h = None → k < length logits →
    ∃ w' k' h',
      k' ≤ k ∧ heads !! k' = Some h' ∧ label_tensor_name h' = None ∧
      Forall connected (take k' heads) ∧
      logits_to_loss_per_head_loop (zip heads logits) kwargs acc w =
        (w', Raise (head_not_connected (task_name h'))).
Proof.
  induction heads as [|h0 hs IH]; intros logits k h acc w Hk Hh Hlt; [done|].
  destruct logits as [|l0 ls]; [simpl in Hlt; lia|].
  cbn [zip zip_with logits_to_loss_per_head_loop].
  destruct (label_tensor_name h0) as [name|] eqn:Hh0.
  - destruct k as [|k]; [simplify_eq/=|].
    unfold bind at 1 2. cbn [ret emit].
    edestruct (IH ls k h) as (w' & k' & h' & Hle & Hk' & Hh' & Hbefore & Hrun);
      [exact Hk | exact Hh | simpl in Hlt; lia |].
    exists w', (S k'), h'. split_and!; [lia | exact Hk' | exact Hh' | | exact Hrun].
    cbn [take]. constructor; [by exists name | exact Hbefore].
  - exists w, 0, h0. split_and!; [lia | done | done | constructor | done].
Qed.

(** C7 (amended).  If a head that is paired with a logits entry lacks
    [label_tensor_name], [logits_to_loss] computes no loss: it fails with the
    not-connected error that names the task of the first head lacking the
    attribute. *)
Theorem logits_to_loss_needs_connected_heads (self : Model)
    (logits : list (value scalar)) (global_step : value scalar)
    (kwargs : gmap string (value scalar)) (w : World) (k : nat) (h : Head) :
  prediction_heads self !! k = Some h →
  label_tensor_name h = None →
  k < length logits →
  ∃ w' k' h',
    prediction_heads self !! k' = Some h' ∧
    label_tensor_name h' = None ∧
    Forall connected (take k' (prediction_heads self)) ∧
    logits_to_loss self logits global_step kwargs w =
      (w', Raise (head_not_connected (task_name h'))).
Proof.
  intros Hk Hh Hlt.
  destruct (loss_loop_unconnected kwargs _ logits k h [] w Hk Hh Hlt)
    as (w' & k' & h' & _ & Hk' & Hh' & Hbefore & Hrun).
  exists w', k', h'. split_and!; try assumption.
  unfold logits_to_loss, logits_to_loss_per_head, bind. by rewrite Hrun.
Qed.

Lemma logits_to_preds_loop_run (zipped : list (Head * value scalar))
    (kwargs : gmap string (value scalar)) :
  ∀ acc (w : World),
    (logits_to_preds_loop zipped kwargs acc w).2 =
    Ok (acc ++ ((fun hl => ph_logits_to_preds hl.1 (kw "logits" hl.2 kwargs)) <$> zipped)).
Proof.
  induction zipped as [|[h l] zipped IH]; intros acc w.
  - cbn. by rewrite app_nil_r.
  - cbn [logits_to_preds_loop]. unfold bind, emit. rewrite IH.
    by rewrite <- app_assoc.
Qed.

(** X3.  [logits_to_preds] returns one prediction per pair of a head and a
    logits entry, in head order: what that head makes of that entry. *)
Theorem logits_to_preds_per_head (heads : list Head)
    (logits : list (value scalar)) (kwargs : gmap string (value scalar))
    (w : World) :
  (logits_to_preds heads logits kwargs w).2 =
  Ok ((fun hl => ph_logits_to_preds hl.1 (kw "logits" hl.2 kwargs))
        <$> zip heads logits).
Proof. unfold logits_to_preds. by rewrite logits_to_preds_loop_run. Qed.

Lemma connect_heads_connects (tasks : gmap string task) (heads : list Head) :
  Forall (fun h => ∃ t, tasks !! task_name h = Some t ∧
                        label_list_is_falsy (t_label_list t) = false) heads →
  ∃ heads',
    connect_heads tasks true heads = (heads', Ok tt) ∧
    length heads' = length heads ∧
    Forall connected heads'.
Proof.
  induction 1 as [|h heads (t & Ht & Hl) _ (heads' & IH & Hlen & Hconn)].
  - by exists [].
  - cbn [connect_heads]. unfold connect_head. rewrite Ht, Hl. cbn [andb].
    destruct (t_label_list t) as [labels|] eqn:Hlabels; [|done].
    rewrite IH. eexists. split; [reflexivity|]. split; [simpl; lia|].
    constructor; [|exact Hconn]. by eexists.
Qed.

(** X4.  When the task table has, for the task of every head, an entry with
    a non-empty label list, [connect_heads_with_processor] completes and
    leaves every head with a [label_tensor_name]. *)
Theorem connect_heads_with_processor_connects (self : Model)
    (tasks : gmap string task) :
  Forall (fun h => ∃ t, tasks !! task_name h = Some t ∧
                        label_list_is_falsy (t_label_list t) = false)
         (prediction_heads self) →
  (connect_heads_with_processor self tasks true).2 = Ok tt ∧
  length (prediction_heads (connect_heads_with_processor self tasks true).1) =
    length (prediction_heads self) ∧
  Forall connected (prediction_heads (connect_heads_with_processor self tasks true).1).
Proof.
  intros Htasks. unfold connect_heads_with_processor.
  destruct (connect_heads_connects tasks _ Htasks) as (heads' & Hrun & Hlen & Hconn).
  rewrite Hrun. by cbn.
Qed.

End Loss.

(** ** Formatting predictions *)

Section Formatting.
Context {scalar ph_config lm_config : Type}.
Variable stack : value scalar → result (list (value scalar)).

Local Abbreviation Head := (PredictionHead scalar ph_config).
Local Abbreviation World := (world ph_config lm_config).
Local Abbreviation Kwargs := (gmap string (value scalar)).

(** C5, as the code has it.  With no head, [formatted_preds] calls the
    formatter of encoder 1, then that of encoder 2, calls no head, and then
    reads the local [preds_final], which this branch never assigns: the call
    raises instead of returning the two formatted results. *)
Theorem formatted_preds_no_heads_raises (logits : value scalar)
    (lm1 lm2 : LanguageModel scalar lm_config) (kwargs : Kwargs) (w : World) :
  ∃ w',
    formatted_preds stack [] logits lm1 lm2 kwargs w =
      (w', Raise (UnboundLocalError "preds_final")) ∧
    w_trace w' = w_trace w ++ [EncoderFormattedPreds LM1; EncoderFormattedPreds LM2] ∧
    heads_touched (w_trace w') = heads_touched (w_trace w).
Proof.
  eexists. split; [reflexivity|]. cbn [w_trace]. split.
  - by rewrite <- app_assoc.
  - unfold heads_touched. by rewrite !omap_app, !app_nil_r.
Qed.

End Formatting.

(** ** Loading *)

Section Loading.
Context {scalar ph_config lm_config : Type}.
Variable sadd : scalar → scalar → scalar.
Variable sint : Z → scalar.
Variable LanguageModel_from_config : lm_config → LanguageModel scalar lm_config.
Variable PredictionHead_from_config : ph_config → PredictionHead scalar ph_config.

Local Abbreviation World := (world ph_config lm_config).
Local Abbreviation Comp := (M ph_config lm_config).
Local Abbreviation Node := (node ph_config lm_config).
Local Abbreviation keeps_trace c := (@keeps_trace ph_config lm_config _ c).

Lemma keeps_trace_ret {A} (a : A) : keeps_trace (ret a : Comp A).
Proof. done. Qed.

Lemma keeps_trace_raise {A} (e : exn) : keeps_trace (raise e : Comp A).
Proof. done. Qed.

Lemma keeps_trace_lift {A} (r : result A) : keeps_trace (lift r : Comp A).
Proof. done. Qed.

Lemma keeps_trace_get_fs : keeps_trace (get_fs : Comp Node).
Proof. done. Qed.

Lemma keeps_trace_put_fs (fs : Node) : keeps_trace (put_fs fs).
Proof. done. Qed.

Lemma keeps_trace_bind {A B} (c : Comp A) (k : A → Comp B) :
  keeps_trace c → (∀ a, keeps_trace (k a)) → keeps_trace (bind c k).
Proof.
  intros Hc Hk w. unfold bind. specialize (Hc w).
  destruct (c w) as [w' [a|e]]; simpl in *; [|done].
  by rewrite Hk.
Qed.

Create HintDb trace discriminated.
#[local] Hint Resolve keeps_trace_ret keeps_trace_raise keeps_trace_lift
  keeps_trace_get_fs keeps_trace_put_fs : trace.

Ltac keeps_trace_step :=
  first [ apply keeps_trace_bind; [|intros ?]
        | progress auto with trace
        | case_match ].

Ltac keeps_trace_auto := repeat keeps_trace_step.

Lemma keeps_trace_read_file (p : path) :
  keeps_trace (read_file p : Comp (content ph_config lm_config)).
Proof. unfold read_file. keeps_trace_auto. Qed.

Lemma keeps_trace_write_file (p : path) (c : content ph_config lm_config) :
  keeps_trace (write_file p c).
Proof. unfold write_file. keeps_trace_auto. Qed.

Lemma keeps_trace_listdir (p : path) :
  keeps_trace (listdir p : Comp (list string)).
Proof. unfold listdir. keeps_trace_auto. Qed.

Lemma keeps_trace_is_file (p : path) :
  keeps_trace (is_file p : Comp bool).
Proof. unfold is_file. keeps_trace_auto. Qed.

#[local] Hint Resolve keeps_trace_read_file keeps_trace_write_file
  keeps_trace_listdir keeps_trace_is_file : trace.

Lemma keeps_trace_get_files (load_dir : path) :
  keeps_trace (_get_prediction_head_files load_dir : Comp (list path)).
Proof. unfold _get_prediction_head_files. keeps_trace_auto. Qed.

Lemma keeps_trace_LanguageModel_load (load_dir : path) :
  keeps_trace (LanguageModel_load LanguageModel_from_config load_dir).
Proof. unfold LanguageModel_load. keeps_trace_auto. Qed.

Lemma keeps_trace_PredictionHead_load (config_file : path) :
  keeps_trace (PredictionHead_load (lm_config:=lm_config) PredictionHead_from_config config_file).
Proof. unfold PredictionHead_load. keeps_trace_auto. Qed.

#[local] Hint Resolve keeps_trace_get_files keeps_trace_LanguageModel_load
  keeps_trace_PredictionHead_load : trace.

Lemma keeps_trace_load_heads (files : list path) :
  ∀ heads types,
    keeps_trace (load_heads (lm_config:=lm_config) PredictionHead_from_config files heads types).
Proof.
  induction files as [|f files IH]; intros heads types; cbn [load_heads];
    keeps_trace_auto.
Qed.

Lemma keeps_trace_onnx_load_heads (files : list path) :
  ∀ heads types,
    keeps_trace (onnx_load_heads (lm_config:=lm_config) PredictionHead_from_config files heads types).
Proof.
  induction files as [|f files IH]; intros heads types; cbn [onnx_load_heads];
    keeps_trace_auto.
Qed.

#[local] Hint Resolve keeps_trace_load_heads keeps_trace_onnx_load_heads : trace.

Lemma trace_after_emit {A} (e : event) (c : Comp A) (w : World) :
  keeps_trace c →
  w_trace (bind (emit e) (fun _ => c) w).1 = w_trace w ++ [e].
Proof. intros Hc. unfold bind, emit. cbn. by rewrite Hc. Qed.

Lemma get_files_run (load_dir : path) (children : gmap string Node) (w : World) :
  fs_lookup (w_fs w) load_dir = Some (Dir children) →
  _get_prediction_head_files load_dir w = (w, Ok (head_config_files load_dir children)).
Proof.
  intros Hdir. unfold _get_prediction_head_files, listdir, bind, get_fs.
  by rewrite Hdir.
Qed.

Lemma keeps_trace_onnx_body (load_dir : path) (device : string) :
  keeps_trace
    (bind (new_inference_session (ph_config:=ph_config) (lm_config:=lm_config)
             (load_dir ++ ["model.onnx"]))
       (fun onnx_session =>
          bind (_get_prediction_head_files load_dir) (fun files =>
          bind (unpack2 files) (fun unpacked =>
          let '(_, ph_config_files) := unpacked in
          bind (iter_path ph_config_files) (fun config_files =>
          bind (onnx_load_heads PredictionHead_from_config config_files [] [])
            (fun prediction_heads =>
          bind (read_file (load_dir ++ ["model_config.json"])) (fun c =>
          bind (match c with
                | ModelConfigJson (Some language) => ret language
                | ModelConfigJson None => raise (KeyError "language")
                | _ => raise (ValueError "model_config.json is not JSON")
                end) (fun language =>
          ONNXBiAdaptiveModel_init onnx_session prediction_heads language device)))))))).
Proof.
  unfold new_inference_session, unpack2, iter_path, ONNXBiAdaptiveModel_init.
  keeps_trace_auto.
Qed.

(** C10.  [ONNXBiAdaptiveModel.load] never returns a model.  When the
    session over [model.onnx] can be opened, the failure is that of the head
    step: with two head config files the second path is iterated, which a
    path does not support; with any other number the two-name unpacking
    fails. *)
Theorem onnx_load_always_raises (load_dir : path) (device : string) (w : World) :
  ∃ w' e,
    ONNXBiAdaptiveModel_load PredictionHead_from_config load_dir device w =
      (w', Raise e) ∧
    ∀ children,
      fs_lookup (w_fs w) (load_dir ++ ["model.onnx"]) = Some (File OnnxGraph) →
      fs_lookup (w_fs w) load_dir = Some (Dir children) →
      let n := length (head_config_files load_dir children) in
      e = if n =? 2 then TypeError "'PosixPath' object is not iterable"
          else if n <? 2 then
            ValueError ("not enough values to unpack (expected 2, got " ++
                        str_of_nat n ++ ")")
          else ValueError "too many values to unpack (expected 2)".
Proof.
  unfold ONNXBiAdaptiveModel_load, bind at 1 2, emit, new_inference_session,
    read_file, bind at 1 2, get_fs. cbn [w_fs].
  destruct (fs_lookup (w_fs w) (load_dir ++ ["model.onnx"])) as [[[]|]|] eqn:Hm;
    try (eexists _, _; split; [reflexivity | by intros ? ?]).
  unfold ret, bind at 1.
  destruct (_get_prediction_head_files load_dir _) as [w1 [files|e]] eqn:Hfiles.
  2:{ eexists _, _. split; [reflexivity|]. intros children _ Hdir.
      rewrite (get_files_run _ children) in Hfiles by exact Hdir. done. }
  assert (Hn : ∀ children, fs_lookup (w_fs w) load_dir = Some (Dir children) →
               files = head_config_files load_dir children).
  { intros children Hdir.
    rewrite (get_files_run _ children) in Hfiles by exact Hdir. congruence. }
  unfold bind at 1, unpack2.
  destruct files as [|f1 [|f2 [|f3 files]]]; unfold raise, ret;
    try (eexists _, _; split; [reflexivity|];
         intros children _ Hdir; cbv zeta; by rewrite <- (Hn children Hdir)).
Qed.

Lemma trace_ONNXBiAdaptiveModel_load (load_dir : path) (device : string) (w : World) :
  w_trace (ONNXBiAdaptiveModel_load PredictionHead_from_config load_dir device w).1 =
  w_trace w ++ [ClassLoad "ONNXBiAdaptiveModel"].
Proof.
  unfold ONNXBiAdaptiveModel_load.
  apply trace_after_emit, keeps_trace_onnx_body.
Qed.

Lemma trace_BiAdaptiveModel_load (cls_name : string) (load_dir : path)
    (device : string) (strict : bool) (lm1_name lm2_name : string)
    (processor : option (gmap string task)) (w : World) :
  w_trace (BiAdaptiveModel_load sadd sint LanguageModel_from_config
             PredictionHead_from_config cls_name load_dir device strict
             lm1_name lm2_name processor w).1 =
  w_trace w ++ [ClassLoad cls_name].
Proof.
  unfold BiAdaptiveModel_load.
  apply trace_after_emit. keeps_trace_auto.
Qed.

Lemma subclasses_lookup_onnx :
  subclasses !! "ONNXBiAdaptiveModel" = Some ClsONNXBiAdaptiveModel.
Proof. by vm_compute. Qed.

Lemma subclasses_lookup_trainable :
  subclasses !! "BiAdaptiveModel" = Some ClsBiAdaptiveModel.
Proof. by vm_compute. Qed.

(** C9.  The polymorphic [load], given a directory and a device, enters the
    [load] of exactly one class: that of [ONNXBiAdaptiveModel] if
    [model.onnx] is a regular file of the directory, whatever else the
    directory holds, and that of [BiAdaptiveModel] otherwise; and it returns
    what that class's [load] returns. *)
Theorem load_selects_backend_by_marker (kwargs : load_kwargs) (w : World)
    (load_dir : path) (device : string) :
  kw_load_dir kwargs = Some load_dir →
  kw_device kwargs = Some device →
  let run := BaseBiAdaptiveModel_load sadd sint LanguageModel_from_config
               PredictionHead_from_config kwargs w in
  let frozen :=
    bind (ONNXBiAdaptiveModel_load PredictionHead_from_config load_dir device)
         (fun m => ret (Frozen m)) in
  let trainable :=
    bind (BiAdaptiveModel_load sadd sint LanguageModel_from_config
            PredictionHead_from_config "BiAdaptiveModel" load_dir device
            (default true (kw_strict kwargs))
            (default "lm1" (kw_lm1_name kwargs))
            (default "lm2" (kw_lm2_name kwargs))
            (kw_processor kwargs))
         (fun m => ret (Trainable m)) in
  (has_onnx_marker w load_dir = true →
     run = frozen w ∧
     classes_loaded (w_trace run.1) =
       classes_loaded (w_trace w) ++ ["ONNXBiAdaptiveModel"]) ∧
  (has_onnx_marker w load_dir = false →
     run = trainable w ∧
     classes_loaded (w_trace run.1) =
       classes_loaded (w_trace w) ++ ["BiAdaptiveModel"]).
Proof.
  intros Hdir Hdev run frozen trainable.
  assert (Hrun : run = if has_onnx_marker w load_dir then frozen w else trainable w).
  { unfold run, BaseBiAdaptiveModel_load. rewrite Hdir.
    unfold bind at 1, ret at 1, bind at 1, is_file, bind at 1, get_fs, ret at 1.
    fold (has_onnx_marker w load_dir).
    destruct (has_onnx_marker w load_dir); unfold class_load.
    - by rewrite subclasses_lookup_onnx, Hdir, Hdev.
    - by rewrite subclasses_lookup_trainable, Hdir, Hdev. }
  split; intros Hm; rewrite Hm in Hrun; (split; [exact Hrun|]); rewrite Hrun.
  - unfold frozen, bind.
    pose proof (trace_ONNXBiAdaptiveModel_load load_dir device w) as Ht.
    destruct (ONNXBiAdaptiveModel_load _ _ _ _) as [w' [m|e]]; simpl in *;
      rewrite Ht; unfold classes_loaded; by rewrite omap_app.
  - unfold trainable, bind.
    pose proof (trace_BiAdaptiveModel_load "BiAdaptiveModel" load_dir device
                  (default true (kw_strict kwargs))
                  (default "lm1" (kw_lm1_name kwargs))
                  (default "lm2" (kw_lm2_name kwargs))
                  (kw_processor kwargs) w) as Ht.
    destruct (BiAdaptiveModel_load _ _ _ _ _ _ _ _ _ _ _ _) as [w' [m|e]];
      simpl in *; rewrite Ht; unfold classes_loaded; by rewrite omap_app.
Qed.

End Loading.

(** ** Listing and saving files *)

Section Files.
Context {scalar ph_config lm_config : Type}.

Local Abbreviation World := (world ph_config lm_config).
Local Abbreviation Node := (node ph_config lm_config).
Local Abbreviation Comp := (M ph_config lm_config).
Local Abbreviation keeps_path q c := (@keeps_path ph_config lm_config _ q c).

Lemma path_leb_total (p q : path) : path_leb p q = false → path_leb q p = true.
Proof.
  revert q. induction p as [|a p IH]; intros [|b q]; simpl; try done.
  rewrite (String.compare_antisym b a).
  destruct (String.compare a b); simpl; auto; done.
Qed.

Lemma sort_insert_perm (x : path) (l : list path) : sort_insert x l ≡ₚ x :: l.
Proof.
  induction l as [|y r IH]; simpl; [done|].
  destruct (path_leb x y); [done|].
  rewrite IH. apply Permutation_swap.
Qed.

Lemma sort_paths_perm (l : list path) : sort_paths l ≡ₚ l.
Proof.
  induction l as [|x l IH]; simpl; [done|].
  by rewrite sort_insert_perm, IH.
Qed.

Lemma sort_insert_sorted (x : path) (l : list path) :
  Sorted (fun p q => path_leb p q = true) l →
  Sorted (fun p q => path_leb p q = true) (sort_insert x l).
Proof.
  induction 1 as [|y r Hr IH Hhd]; simpl.
  - repeat constructor.
  - destruct (path_leb x y) eqn:Hxy.
    + repeat constructor; done.
    + constructor; [exact IH|].
      destruct Hhd as [|z r Hyz]; simpl.
      * constructor. by apply path_leb_total.
      * destruct (path_leb x z); constructor; [by apply path_leb_total | done].
Qed.

Lemma sort_paths_sorted (l : list path) :
  Sorted (fun p q => path_leb p q = true) (sort_paths l).
Proof.
  induction l as [|x l IH]; simpl; [constructor|].
  by apply sort_insert_sorted.
Qed.

Lemma head_config_files_elem (load_dir : path) (children : gmap string Node) (p : path) :
  p ∈ head_config_files load_dir children ↔
  ∃ f, p = load_dir ++ [f] ∧ is_Some (children !! f) ∧
       str_contains "config.json" f = true ∧
       str_contains "prediction_head" f = true.
Proof.
  unfold head_config_files. rewrite sort_paths_perm.
  change (map ?f ?l) with (f <$> l).
  rewrite list_elem_of_fmap. split.
  - intros (f & -> & Hf). exists f. split; [done|].
    apply list_elem_of_In, filter_In in Hf as [Hin Htest].
    apply list_elem_of_In, list_elem_of_fmap in Hin as ([f' n] & -> & Hin).
    apply elem_of_map_to_list in Hin. simpl.
    apply andb_true_iff in Htest. split; [by eexists | done].
  - intros (f & -> & [n Hn] & H1 & H2). exists f. split; [done|].
    apply list_elem_of_In, filter_In. split.
    + apply list_elem_of_In, list_elem_of_fmap. exists (f, n).
      split; [done|]. by apply elem_of_map_to_list.
    + by rewrite H1, H2.
Qed.

Lemma head_config_files_NoDup (load_dir : path) (children : gmap string Node) :
  NoDup (head_config_files load_dir children).
Proof.
  unfold head_config_files. rewrite sort_paths_perm.
  change (map ?f ?l) with (f <$> l).
  apply NoDup_fmap_2.
  - intros f g Heq. apply app_inv_head in Heq. congruence.
  - apply NoDup_ListNoDup, List.NoDup_filter, NoDup_ListNoDup, NoDup_fst_map_to_list.
Qed.

(** X5.  [_get_prediction_head_files] changes nothing.  On a directory it
    returns, without repetition and in ascending order of the paths, exactly
    the paths [load_dir / f] of the entries [f] whose name contains both
    [config.json] and [prediction_head]; on anything else it raises
    [OSError]. *)
Theorem get_prediction_head_files_sorted_configs (load_dir : path) (w : World) :
  match fs_lookup (w_fs w) load_dir with
  | Some (Dir children) =>
      ∃ files,
        _get_prediction_head_files load_dir w = (w, Ok files) ∧
        (∀ p, p ∈ files ↔
              ∃ f, p = load_dir ++ [f] ∧ is_Some (children !! f) ∧
                   str_contains "config.json" f = true ∧
                   str_contains "prediction_head" f = true) ∧
        NoDup files ∧
        Sorted (fun p q => path_leb p q = true) files
  | _ =>
      _get_prediction_head_files load_dir w =
        (w, Raise (OSError ("not a directory: " ++ path_str load_dir)))
  end.
Proof.
  destruct (fs_lookup (w_fs w) load_dir) as [[c|children]|] eqn:Hdir;
    try (unfold _get_prediction_head_files, listdir, bind, get_fs;
         by rewrite Hdir).
  exists (head_config_files load_dir children). split_and!.
  - by apply get_files_run.
  - apply head_config_files_elem.
  - apply head_config_files_NoDup.
  - apply sort_paths_sorted.
Qed.

Lemma fs_lookup_empty_dir (p : path) :
  p ≠ [] → fs_lookup (Dir ∅ : Node) p = None.
Proof. by destruct p. Qed.

Lemma fs_write_cons (children : gmap string Node) (x y : string) (l : path)
    (c : content ph_config lm_config) :
  fs_write (Dir children) (x :: y :: l) c =
  match children !! x with
  | Some sub =>
      match fs_write sub (y :: l) c with
      | Some sub' => Some (Dir (<[x := sub']> children))
      | None => None
      end
  | None => None
  end.
Proof. reflexivity. Qed.

Lemma fs_write_diverge (base : path) (a b : string) (p' q' : path)
    (c : content ph_config lm_config) :
  a ≠ b →
  ∀ d d' : Node,
    fs_write d (base ++ a :: p') c = Some d' →
    fs_lookup d' (base ++ b :: q') = fs_lookup d (base ++ b :: q').
Proof.
  intros Hne. induction base as [|x base IH]; intros d d' Hw.
  - destruct d as [?|children];
      [destruct p'; simpl in Hw; done|].
    cbn [app] in *.
    assert (∃ n, d' = Dir (<[a := n]> children)) as [n ->].
    { destruct p' as [|y p']; simpl in Hw; repeat case_match; simplify_eq; by eexists. }
    simpl. by rewrite lookup_insert_ne.
  - destruct d as [?|children].
    { destruct base; simpl in Hw; done. }
    assert (∃ sub sub', children !! x = Some sub ∧
              fs_write sub (base ++ a :: p') c = Some sub' ∧
              d' = Dir (<[x := sub']> children)) as (sub & sub' & Hx & Hsub & ->).
    { cbn [app] in Hw.
      destruct (base ++ a :: p') as [|y l] eqn:Hl; [by destruct base|].
      rewrite fs_write_cons in Hw. destruct (children !! x) as [sub|]; [|done].
      destruct (fs_write sub (y :: l) c) as [sub'|] eqn:Hsub; [|done].
      simplify_eq. by eexists _, _. }
    cbn [app fs_lookup]. rewrite lookup_insert_eq, Hx. by apply IH.
Qed.

Lemma fs_makedirs_diverge (base : path) (a b : string) (p' q' : path) :
  a ≠ b →
  ∀ d d' : Node,
    fs_makedirs d (base ++ a :: p') = Some d' →
    fs_lookup d' (base ++ b :: q') = fs_lookup d (base ++ b :: q').
Proof.
  intros Hne. induction base as [|x base IH]; intros d d' Hm.
  - destruct d as [?|children]; [done|]. simpl in Hm.
    case_match; simplify_eq. simpl. by rewrite lookup_insert_ne.
  - destruct d as [?|children]; [done|]. cbn [app fs_makedirs] in Hm.
    destruct (fs_makedirs _ _) as [sub'|] eqn:Hsub; simplify_eq.
    cbn [app fs_lookup]. rewrite lookup_insert_eq.
    rewrite (IH _ _ Hsub).
    destruct (children !! x); simpl; [done|].
    apply fs_lookup_empty_dir. by destruct base.
Qed.

Lemma fs_makedirs_below (base : path) (b : string) (q' : path) :
  ∀ d d' : Node,
    fs_makedirs d base = Some d' →
    fs_lookup d' (base ++ b :: q') = fs_lookup d (base ++ b :: q').
Proof.
  induction base as [|x base IH]; intros d d' Hm.
  - destruct d; simpl in Hm; by simplify_eq.
  - destruct d as [?|children]; [done|]. cbn [fs_makedirs] in Hm.
    destruct (fs_makedirs _ _) as [sub'|] eqn:Hsub; simplify_eq.
    cbn [app fs_lookup]. rewrite lookup_insert_eq.
    rewrite (IH _ _ Hsub).
    destruct (children !! x); simpl; [done|].
    apply fs_lookup_empty_dir. by destruct base.
Qed.

Lemma keeps_path_ret {A} q (a : A) : keeps_path q (ret a : Comp A).
Proof. done. Qed.

Lemma keeps_path_raise {A} q (e : exn) : keeps_path q (raise e : Comp A).
Proof. done. Qed.

Lemma keeps_path_bind {A B} q (c : Comp A) (k : A → Comp B) :
  keeps_path q c → (∀ a, keeps_path q (k a)) → keeps_path q (bind c k).
Proof.
  intros Hc Hk w. unfold bind. specialize (Hc w).
  destruct (c w) as [w' [a|e]]; simpl in *; [|done].
  by rewrite Hk.
Qed.

Lemma keeps_path_exists q (p : path) : keeps_path q (exists_ p : Comp bool).
Proof. done. Qed.

Lemma keeps_path_write_file (base : path) (a b : string) (p' q' : path)
    (c : content ph_config lm_config) :
  a ≠ b → keeps_path (base ++ b :: q') (write_file (base ++ a :: p') c).
Proof.
  intros Hne w. unfold write_file, bind, get_fs.
  destruct (fs_write _ _ _) as [fs'|] eqn:Hw; [|done].
  simpl. by eapply fs_write_diverge.
Qed.

Lemma keeps_path_makedirs_diverge (base : path) (a b : string) (p' q' : path) :
  a ≠ b → keeps_path (base ++ b :: q') (makedirs (base ++ a :: p') : Comp unit).
Proof.
  intros Hne w. unfold makedirs, bind, get_fs.
  destruct (fs_makedirs _ _) as [fs'|] eqn:Hm; [|done].
  simpl. by eapply fs_makedirs_diverge.
Qed.

Lemma keeps_path_makedirs_below (base : path) (b : string) (q' : path) :
  keeps_path (base ++ b :: q') (makedirs base : Comp unit).
Proof.
  intros w. unfold makedirs, bind, get_fs.
  destruct (fs_makedirs _ _) as [fs'|] eqn:Hm; [|done].
  simpl. by eapply fs_makedirs_below.
Qed.

Lemma keeps_path_save_heads (save_dir : path) (name : string) (rest : path)
    (heads : list (PredictionHead scalar ph_config)) :
  ∀ i,
    (∀ j, i ≤ j < i + length heads →
       name ≠ ("prediction_head_" ++ str_of_nat j ++ ".bin")%string ∧
       name ≠ ("prediction_head_" ++ str_of_nat j ++ "_config.json")%string) →
    keeps_path (save_dir ++ name :: rest)
      (save_heads (lm_config:=lm_config) i heads save_dir).
Proof.
  induction heads as [|h heads IH]; intros i Hnames; cbn [save_heads].
  - apply keeps_path_ret.
  - destruct (Hnames i) as [Hbin Hcfg]; [simpl; lia|].
    apply keeps_path_bind.
    + unfold PredictionHead_save. apply keeps_path_bind.
      * apply keeps_path_write_file. congruence.
      * intros _. apply keeps_path_write_file. congruence.
    + intros _. apply IH. intros j Hj. apply Hnames. simpl. lia.
Qed.

Lemma elem_of_head_file_names (n : nat) (name : string) :
  name ∈ head_file_names n ↔
  ∃ j, j < n ∧ (name = ("prediction_head_" ++ str_of_nat j ++ ".bin")%string ∨
                name = ("prediction_head_" ++ str_of_nat j ++ "_config.json")%string).
Proof.
  unfold head_file_names. rewrite list_elem_of_bind. split.
  - intros (j & Hin & Hj). apply elem_of_seq in Hj.
    exists j. split; [lia|].
    apply elem_of_cons in Hin as [->|Hin]; [by left|].
    apply list_elem_of_singleton in Hin as ->. by right.
  - intros (j & Hj & Hname). exists j. split.
    + destruct Hname as [->| ->]; [by left | right; by left].
    + apply elem_of_seq. lia.
Qed.

Lemma keeps_path_save (self : BiAdaptiveModel scalar ph_config lm_config)
    (save_dir : path) (name : string) (rest : path) :
  name ∉ "lm1" :: "lm2" :: head_file_names (length (prediction_heads self)) →
  keeps_path (save_dir ++ name :: rest) (save self save_dir).
Proof.
  intros Hname.
  apply not_elem_of_cons in Hname as [H1 Hname].
  apply not_elem_of_cons in Hname as [H2 Hheads].
  unfold save.
  apply keeps_path_bind; [apply keeps_path_makedirs_below | intros _].
  apply keeps_path_bind; [apply keeps_path_exists | intros e1].
  apply keeps_path_bind; [|intros _].
  { destruct (negb e1); [|apply keeps_path_ret].
    apply keeps_path_makedirs_diverge; congruence. }
  apply keeps_path_bind; [apply keeps_path_exists | intros e2].
  apply keeps_path_bind; [|intros _].
  { destruct (negb e2); [|apply keeps_path_ret].
    apply keeps_path_makedirs_diverge; congruence. }
  apply keeps_path_bind; [|intros _].
  { unfold LanguageModel_save. rewrite <- app_assoc.
    apply keeps_path_write_file. congruence. }
  apply keeps_path_bind; [|intros _].
  { unfold LanguageModel_save. rewrite <- app_assoc.
    apply keeps_path_write_file. congruence. }
  apply keeps_path_save_heads. intros j Hj.
  split; intros ->; apply Hheads, elem_of_head_file_names; exists j;
    (split; [lia | auto]).
Qed.

(** X6.  [save] overwrites, it never cleans up: whether it completes or
    fails on the way, whatever is found under an entry of [save_dir] other
    than [lm1], [lm2] and the head files it writes is what was there
    before. *)
Theorem save_keeps_other_entries (self : BiAdaptiveModel scalar ph_config lm_config)
    (save_dir : path) (name : string) (rest : path) (w : World) :
  name ∉ "lm1" :: "lm2" :: head_file_names (length (prediction_heads self)) →
  fs_lookup (w_fs (save self save_dir w).1) (save_dir ++ name :: rest) =
  fs_lookup (w_fs w) (save_dir ++ name :: rest).
Proof. intros Hname. by apply keeps_path_save. Qed.

Lemma fs_lookup_app (d : Node) (p q : path) :
  fs_lookup d (p ++ q) =
  match fs_lookup d p with
  | Some n => fs_lookup n q
  | None => None
  end.
Proof.
  revert d. induction p as [|x p IH]; intros d; [done|].
  simpl. destruct d as [?|children]; [done|].
  destruct (children !! x); [apply IH | done].
Qed.


End Files.

(** ** The round trip of [save] and [load]

    [save] and [load] only reach below the directory they are given, so a
    run in [save_dir] is a run in the root directory of a file system that
    holds what [save_dir] holds. *)

Section RoundTrip.
Context {scalar ph_config lm_config : Type}.
Variable sadd : scalar → scalar → scalar.
Variable sint : Z → scalar.
Variable LanguageModel_from_config : lm_config → LanguageModel scalar lm_config.
Variable PredictionHead_from_config : ph_config → PredictionHead scalar ph_config.

Local Abbreviation World := (world ph_config lm_config).
Local Abbreviation Comp := (M ph_config lm_config).
Local Abbreviation Node := (node ph_config lm_config).
Local Abbreviation simulates d rel c c' :=
  (@simulates ph_config lm_config _ _ d rel c c').

Lemma string_compare_refl (a : string) : String.compare a a = Eq.
Proof.
  pose proof (String.compare_antisym a a) as H.
  by destruct (String.compare a a).
Qed.

Lemma path_leb_app (d p q : path) : path_leb (d ++ p) (d ++ q) = path_leb p q.
Proof.
  induction d as [|a d IH]; [done|]. simpl. by rewrite string_compare_refl.
Qed.

Lemma sort_insert_app (d x : path) (l : list path) :
  sort_insert (d ++ x) ((d ++.) <$> l) = (d ++.) <$> sort_insert x l.
Proof.
  induction l as [|y l IH]; [done|].
  cbn [fmap list_fmap sort_insert]. rewrite path_leb_app.
  destruct (path_leb x y); [done|].
  cbn [fmap list_fmap]. f_equal. exact IH.
Qed.

Lemma sort_paths_app (d : path) (l : list path) :
  sort_paths ((d ++.) <$> l) = (d ++.) <$> sort_paths l.
Proof.
  induction l as [|x l IH]; [done|].
  cbn [fmap list_fmap sort_paths foldr]. fold (sort_paths ((d ++.) <$> l)).
  fold (sort_paths l). by rewrite IH, sort_insert_app.
Qed.

Lemma fs_write_under (d p : path) (c : content ph_config lm_config) :
  ∀ fs sub sub' : Node,
    fs_lookup fs d = Some sub →
    fs_write sub p c = Some sub' →
    ∃ fs', fs_write fs (d ++ p) c = Some fs' ∧ fs_lookup fs' d = Some sub'.
Proof.
  induction d as [|x d IH]; intros fs sub sub' Hd Hw.
  - simpl in Hd. simplify_eq. by exists sub'.
  - destruct fs as [?|children]; [done|]. simpl in Hd.
    destruct (children !! x) as [n|] eqn:Hx; [|done].
    destruct (IH n sub sub' Hd Hw) as (n' & Hn' & Hl).
    exists (Dir (<[x := n']> children)). split.
    + cbn [app].
      destruct (d ++ p) as [|y l] eqn:Hl';
        [destruct n; by destruct d, p|].
      by rewrite fs_write_cons, Hx, Hn'.
    + simpl. by rewrite lookup_insert_eq.
Qed.

Lemma fs_makedirs_under (d p : path) :
  ∀ fs sub sub' : Node,
    fs_lookup fs d = Some sub →
    fs_makedirs sub p = Some sub' →
    ∃ fs', fs_makedirs fs (d ++ p) = Some fs' ∧ fs_lookup fs' d = Some sub'.
Proof.
  induction d as [|x d IH]; intros fs sub sub' Hd Hm.
  - simpl in Hd. simplify_eq. by exists sub'.
  - destruct fs as [?|children]; [done|]. simpl in Hd.
    destruct (children !! x) as [n|] eqn:Hx; [|done].
    destruct (IH n sub sub' Hd Hm) as (n' & Hn' & Hl).
    exists (Dir (<[x := n']> children)). split.
    + change ((x :: d) ++ p) with (x :: (d ++ p)).
      cbn [fs_makedirs]. rewrite Hx.
      change (default (Dir ∅) (Some n)) with n. by rewrite Hn'.
    + simpl. by rewrite lookup_insert_eq.
Qed.

Lemma fs_makedirs_existing (d : path) :
  ∀ (fs : Node) children,
    fs_lookup fs d = Some (Dir children) → fs_makedirs fs d = Some fs.
Proof.
  induction d as [|x d IH]; intros fs ch Hd.
  - simpl in Hd. by simplify_eq.
  - destruct fs as [?|children]; [done|]. simpl in Hd.
    destruct (children !! x) as [n|] eqn:Hx; [|done].
    cbn [fs_makedirs]. rewrite Hx.
    change (default (Dir ∅) (Some n)) with n. rewrite (IH n ch Hd).
    by rewrite insert_id.
Qed.

Lemma fs_makedirs_fresh (d : path) :
  ∀ fs fs' : Node,
    fs_lookup fs d = None → fs_makedirs fs d = Some fs' →
    fs_lookup fs' d = Some (Dir ∅).
Proof.
  induction d as [|x d IH]; intros fs fs' Hd Hm; [done|].
  destruct fs as [?|children]; [done|]. cbn [fs_makedirs] in Hm.
  destruct (fs_makedirs _ d) as [sub'|] eqn:Hsub; simplify_eq.
  simpl. rewrite lookup_insert_eq. simpl in Hd.
  destruct (children !! x) as [n|]; simpl in Hsub.
  - by apply (IH n).
  - destruct d as [|y d]; [simpl in Hsub; by simplify_eq|].
    by apply (IH (Dir ∅)).
Qed.

Lemma sim_ret {A B} d (rel : A → B → Prop) (a : A) (b : B) :
  rel a b → simulates d rel (ret a) (ret b).
Proof. intros Hr w ws ws' b' Hs [= <- <-]. by exists w, a. Qed.

Lemma sim_bind {A B A' B'} d (rel1 : A → B → Prop) (rel2 : A' → B' → Prop)
    (c : Comp A) (c' : Comp B) (k : A → Comp A') (k' : B → Comp B') :
  simulates d rel1 c c' →
  (∀ a b, rel1 a b → simulates d rel2 (k a) (k' b)) →
  simulates d rel2 (bind c k) (bind c' k').
Proof.
  intros Hc Hk w ws ws' b' Hs Hrun. unfold bind in Hrun.
  destruct (c' ws) as [ws1 [b|e]] eqn:Hc'; [|done].
  destruct (Hc w ws ws1 b Hs Hc') as (w1 & a & Hcw & Hs1 & Hab).
  destruct (Hk a b Hab w1 ws1 ws' b' Hs1 Hrun) as (w' & a' & Hkw & Hs' & Hrel).
  exists w', a'. unfold bind. by rewrite Hcw.
Qed.

Lemma sim_emit d (e : event) : simulates d eq (emit e) (emit e).
Proof. intros w ws ws' b Hs [= <- <-]. by eexists _, _. Qed.

Lemma sim_makedirs d (p : path) :
  simulates d eq (makedirs (d ++ p)) (makedirs p).
Proof.
  intros w ws ws' b Hs Hrun. unfold makedirs, bind, get_fs in *.
  destruct (fs_makedirs (w_fs ws) p) as [sub'|] eqn:Hm; [|done].
  destruct (fs_makedirs_under d p _ _ _ Hs Hm) as (fs' & Hfs' & Hl).
  rewrite Hfs'. unfold put_fs in *. simplify_eq. by eexists _, _.
Qed.

Lemma sim_exists d (p : path) :
  simulates d eq (exists_ (d ++ p)) (exists_ p).
Proof.
  intros w ws ws' b Hs Hrun. unfold exists_, bind, get_fs, ret in *.
  simplify_eq. eexists _, _. split; [reflexivity|]. split; [done|].
  by rewrite fs_lookup_app, Hs.
Qed.

Lemma sim_write_file d (p : path) (c : content ph_config lm_config) :
  simulates d eq (write_file (d ++ p) c) (write_file p c).
Proof.
  intros w ws ws' b Hs Hrun. unfold write_file, bind, get_fs in *.
  destruct (fs_write (w_fs ws) p c) as [sub'|] eqn:Hw; [|done].
  destruct (fs_write_under d p c _ _ _ Hs Hw) as (fs' & Hfs' & Hl).
  rewrite Hfs'. unfold put_fs in *. simplify_eq. by eexists _, _.
Qed.

Lemma sim_read_file d (p : path) :
  simulates d eq (read_file (d ++ p)) (read_file p).
Proof.
  intros w ws ws' b Hs Hrun. unfold read_file, bind, get_fs in *.
  rewrite fs_lookup_app, Hs.
  destruct (fs_lookup (w_fs ws) p) as [[c|?]|]; try done.
  unfold ret in *. simplify_eq. by eexists _, _.
Qed.

Lemma sim_listdir d (p : path) :
  simulates d eq (listdir (d ++ p)) (listdir p).
Proof.
  intros w ws ws' b Hs Hrun. unfold listdir, bind, get_fs in *.
  rewrite fs_lookup_app, Hs.
  destruct (fs_lookup (w_fs ws) p) as [[?|children]|]; try done.
  unfold ret in *. simplify_eq. by eexists _, _.
Qed.

Lemma sim_LanguageModel_save d (lm : LanguageModel scalar lm_config) (p : path) :
  simulates d eq (LanguageModel_save (ph_config:=ph_config) lm (d ++ p))
                 (LanguageModel_save lm p).
Proof. unfold LanguageModel_save. rewrite <- app_assoc. apply sim_write_file. Qed.

Lemma sim_save_heads d (p : path) (heads : list (PredictionHead scalar ph_config)) :
  ∀ i, simulates d eq (save_heads (lm_config:=lm_config) i heads (d ++ p))
                     (save_heads i heads p).
Proof.
  induction heads as [|h heads IH]; intros i; cbn [save_heads].
  - by apply sim_ret.
  - eapply sim_bind; [|intros _ _ _; apply IH].
    unfold PredictionHead_save. rewrite <- !app_assoc.
    eapply sim_bind; [apply sim_write_file|intros _ _ _; apply sim_write_file].
Qed.

Lemma sim_save d (self : BiAdaptiveModel scalar ph_config lm_config) (p : path) :
  simulates d eq (save self (d ++ p)) (save self p).
Proof.
  unfold save. rewrite <- !app_assoc.
  eapply sim_bind; [apply sim_makedirs | intros _ _ _].
  eapply sim_bind; [apply sim_exists | intros e1 ? <-].
  eapply (sim_bind _ eq); [|intros _ _ _].
  { destruct (negb e1); [apply sim_makedirs | by apply sim_ret]. }
  eapply sim_bind; [apply sim_exists | intros e2 ? <-].
  eapply (sim_bind _ eq); [|intros _ _ _].
  { destruct (negb e2); [apply sim_makedirs | by apply sim_ret]. }
  eapply sim_bind; [apply sim_LanguageModel_save | intros _ _ _].
  eapply sim_bind; [apply sim_LanguageModel_save | intros _ _ _].
  apply sim_save_heads.
Qed.

Lemma sim_LanguageModel_load d (p : path) :
  simulates d eq (LanguageModel_load (ph_config:=ph_config) LanguageModel_from_config (d ++ p))
                 (LanguageModel_load LanguageModel_from_config p).
Proof.
  unfold LanguageModel_load. rewrite <- app_assoc.
  eapply sim_bind; [apply sim_read_file | intros c ? <-].
  intros w ws ws' b Hs Hrun. destruct c; try done.
  unfold ret in *. simplify_eq. by eexists _, _.
Qed.

Lemma sim_PredictionHead_load d (p : path) :
  simulates d eq (PredictionHead_load (lm_config:=lm_config) PredictionHead_from_config (d ++ p))
                 (PredictionHead_load PredictionHead_from_config p).
Proof.
  unfold PredictionHead_load.
  eapply sim_bind; [apply sim_read_file | intros c ? <-].
  intros w ws ws' b Hs Hrun. destruct c; try done.
  unfold ret in *. simplify_eq. by eexists _, _.
Qed.

Lemma sim_get_files d (p : path) :
  simulates d (fun a b => a = (d ++.) <$> b)
    (_get_prediction_head_files (d ++ p)) (_get_prediction_head_files p).
Proof.
  unfold _get_prediction_head_files.
  eapply sim_bind; [apply sim_listdir | intros files ? <-].
  apply sim_ret. rewrite <- sort_paths_app. f_equal.
  change (map ?f ?l) with (f <$> l). rewrite <- list_fmap_compose.
  apply list_fmap_ext. intros i f _. simpl. by rewrite app_assoc.
Qed.

Lemma sim_load_heads d (files : list path) :
  ∀ heads types,
    simulates d eq
      (load_heads (lm_config:=lm_config) PredictionHead_from_config
                  ((d ++.) <$> files) heads types)
      (load_heads PredictionHead_from_config files heads types).
Proof.
  induction files as [|f files IH]; intros heads types;
    cbn [fmap list_fmap load_heads].
  - by apply sim_ret.
  - eapply sim_bind; [apply sim_PredictionHead_load | intros h ? <-]. apply IH.
Qed.

Lemma sim_load d (cls_name : string) (p : path) (device : string) (strict : bool)
    (lm1_name lm2_name : string) (processor : option (gmap string task)) :
  simulates d eq
    (BiAdaptiveModel_load sadd sint LanguageModel_from_config
       PredictionHead_from_config cls_name (d ++ p) device strict
       lm1_name lm2_name processor)
    (BiAdaptiveModel_load sadd sint LanguageModel_from_config
       PredictionHead_from_config cls_name p device strict
       lm1_name lm2_name processor).
Proof.
  unfold BiAdaptiveModel_load.
  eapply sim_bind; [apply sim_emit | intros _ _ _].
  eapply (sim_bind _ eq); [|intros lm1 ? <-].
  { destruct (negb _); [rewrite <- app_assoc|]; apply sim_LanguageModel_load. }
  eapply (sim_bind _ eq); [|intros lm2 ? <-].
  { destruct (negb _); [rewrite <- app_assoc|]; apply sim_LanguageModel_load. }
  eapply sim_bind; [apply sim_get_files | intros ? files ->].
  eapply sim_bind; [apply sim_load_heads | intros heads ? <-].
  destruct processor as [tasks|]; [|by apply sim_ret].
  destruct (connect_heads_with_processor _ tasks true) as [m' [[]|e]];
    [by apply sim_ret|].
  intros w ws ws' b Hs Hrun. done.
Qed.

Lemma bind_run {A B} (c : Comp A) (k : A → Comp B) (w w1 : World) (a : A) :
  c w = (w1, Ok a) → bind c k w = k a w1.
Proof. intros H. unfold bind. by rewrite H. Qed.

Lemma makedirs_existing (d : path) (w : World) children :
  fs_lookup (w_fs w) d = Some (Dir children) → makedirs d w = (w, Ok tt).
Proof.
  intros Hd. unfold makedirs, bind, get_fs.
  rewrite (fs_makedirs_existing d _ _ Hd). by destruct w.
Qed.

Lemma save_load_at_root (self : BiAdaptiveModel scalar ph_config lm_config)
    (device : string) (w : World) :
  w_fs w = Dir ∅ →
  length (prediction_heads self) ≤ 10 →
  ∃ w',
    bind (save self [])
         (fun _ => BiAdaptiveModel_load sadd sint LanguageModel_from_config
                     PredictionHead_from_config "BiAdaptiveModel" [] device
                     true "lm1" "lm2" None) w =
    (w', Ok (BiAdaptiveModel_init sadd sint
          (LanguageModel_from_config (lm_generate_config (language_model1 self)))
          (LanguageModel_from_config (lm_generate_config (language_model2 self)))
          ((fun h => PredictionHead_from_config (ph_generate_config h))
             <$> prediction_heads self)
          (1 # 10)%Q device None None None)).
Proof.
  intros Hfs Hlen.
  destruct w as [t d1 d2 fs]. simpl in Hfs. subst fs.
  destruct self as [dev lm1 dims1 lm2 dims2 heads dr1 dr2 ty1 ty2 agg].
  cbn [prediction_heads language_model1 language_model2] in *.
  do 11 (destruct heads as [|? heads]; [eexists; vm_compute; reflexivity|]).
  simpl in Hlen. lia.
Qed.

(** X1.  The round trip into a fresh directory, for up to ten heads: when
    [save_dir] does not exist yet and can be created, [save] followed by
    [load] gives the model that [__init__] builds, with default modes, from
    the two reloaded encoders and the heads rebuilt from the saved
    configurations, in the order of the saved heads; whatever else the file
    system holds. *)
Theorem save_load_up_to_ten_heads (self : BiAdaptiveModel scalar ph_config lm_config)
    (save_dir : path) (device : string) (w : World) :
  fs_lookup (w_fs w) save_dir = None →
  is_Some (fs_makedirs (w_fs w) save_dir) →
  length (prediction_heads self) ≤ 10 →
  (bind (save self save_dir)
        (fun _ => BiAdaptiveModel_load sadd sint LanguageModel_from_config
                    PredictionHead_from_config "BiAdaptiveModel" save_dir device
                    true "lm1" "lm2" None) w).2 =
  Ok (BiAdaptiveModel_init sadd sint
        (LanguageModel_from_config (lm_generate_config (language_model1 self)))
        (LanguageModel_from_config (lm_generate_config (language_model2 self)))
        ((fun h => PredictionHead_from_config (ph_generate_config h))
           <$> prediction_heads self)
        (1 # 10)%Q device None None None).
Proof.
  intros Hfresh [fs1 Hmk] Hlen.
  set (w1 := {| w_trace := w_trace w; w_draws1 := w_draws1 w;
                w_draws2 := w_draws2 w; w_fs := fs1 |}).
  assert (Hw1 : fs_lookup (w_fs w1) save_dir = Some (Dir ∅)).
  { by apply (fs_makedirs_fresh save_dir (w_fs w)). }
  assert (Hsave : save self save_dir w = save self save_dir w1).
  { unfold save.
    rewrite (bind_run (makedirs save_dir) _ w w1 tt),
            (bind_run (makedirs save_dir) _ w1 w1 tt); [done | |].
    - by apply (makedirs_existing save_dir w1 ∅).
    - unfold makedirs, bind, get_fs. by rewrite Hmk. }
  set (ws := {| w_trace := []; w_draws1 := 0; w_draws2 := 0; w_fs := Dir ∅ |} : World).
  destruct (save_load_at_root self device ws eq_refl Hlen) as [ws' Hroot].
  pose proof (sim_bind save_dir eq eq _ _ _ _
                (sim_save save_dir self [])
                (fun _ _ _ => sim_load save_dir "BiAdaptiveModel" [] device true
                                "lm1" "lm2" None)) as Hsim.
  rewrite app_nil_r in Hsim.
  destruct (Hsim w1 ws ws' _ Hw1 Hroot) as (w' & m & Hrun & _ & ->).
  unfold bind at 1 in Hrun. unfold bind at 1. by rewrite Hsave, Hrun.
Qed.

End RoundTrip.

(** ** Connecting heads to tasks *)

Section Connect.
Context {scalar ph_config lm_config : Type}.

Local Abbreviation Head := (PredictionHead scalar ph_config).
Local Abbreviation Model := (BiAdaptiveModel scalar ph_config lm_config).

Lemma connect_head_accepted (tasks : gmap string task) (rl : bool) (h : Head) :
  head_accepted tasks rl h →
  connect_head tasks rl h = (bind_head tasks h, Ok tt).
Proof.
  intros (t & Ht & Hacc). unfold connect_head, bind_head, task_accepted in *.
  rewrite Ht. destruct (t_label_list t) as [[|l ls]|] eqn:Hl; try done.
  - destruct rl; [done|]. cbn. unfold bound_to. by rewrite Hl.
  - cbn. unfold bound_to. by rewrite Hl.
Qed.

Lemma connect_head_ok_inv (tasks : gmap string task) (rl : bool) (h h' : Head) :
  connect_head tasks rl h = (h', Ok tt) → head_accepted tasks rl h.
Proof.
  unfold connect_head, head_accepted, task_accepted.
  destruct (tasks !! task_name h) as [t|]; [|done].
  intros H. exists t. split; [done|].
  destruct (t_label_list t) as [[|l ls]|]; destruct rl; simpl in *; done.
Qed.

Lemma connect_heads_prefix (tasks : gmap string task) (rl : bool)
    (done rest : list Head) :
  Forall (head_accepted tasks rl) done →
  connect_heads tasks rl (done ++ rest) =
  ((bind_head tasks <$> done) ++ (connect_heads tasks rl rest).1,
   (connect_heads tasks rl rest).2).
Proof.
  induction 1 as [|h done Hh _ IH]; cbn [app fmap list_fmap connect_heads].
  - by destruct (connect_heads tasks rl rest).
  - rewrite (connect_head_accepted _ _ _ Hh), IH. reflexivity.
Qed.

Lemma connect_heads_ok_inv (tasks : gmap string task) (rl : bool) (heads : list Head) :
  (connect_heads tasks rl heads).2 = Ok tt →
  Forall (head_accepted tasks rl) heads.
Proof.
  induction heads as [|h heads IH]; [constructor|].
  cbn [connect_heads].
  destruct (connect_head tasks rl h) as [h' [[]|e]] eqn:Hh; [|done].
  destruct (connect_heads tasks rl heads) as [rest' r]. simpl. intros ->.
  constructor; [by eapply connect_head_ok_inv | by apply IH].
Qed.

Lemma connect_ok_result (self : Model) (tasks : gmap string task) (rl : bool) :
  (connect_heads_with_processor self tasks rl).2 = Ok tt →
  Forall (head_accepted tasks rl) (prediction_heads self) ∧
  (connect_heads_with_processor self tasks rl).1 =
    with_heads self (bind_head tasks <$> prediction_heads self).
Proof.
  unfold connect_heads_with_processor. intros Hok.
  destruct (connect_heads tasks rl (prediction_heads self))
    as [heads' r] eqn:Hrun. simpl in Hok. subst r.
  assert (Hacc : Forall (head_accepted tasks rl) (prediction_heads self)).
  { apply connect_heads_ok_inv. by rewrite Hrun. }
  split; [exact Hacc|].
  pose proof (connect_heads_prefix tasks rl _ [] Hacc) as Hp.
  rewrite !app_nil_r, Hrun in Hp. simpl in Hp. by simplify_eq.
Qed.

Lemma connect_accepted_ok (self : Model) (tasks : gmap string task) (rl : bool) :
  Forall (head_accepted tasks rl) (prediction_heads self) →
  connect_heads_with_processor self tasks rl =
    (with_heads self (bind_head tasks <$> prediction_heads self), Ok tt).
Proof.
  intros Hacc. unfold connect_heads_with_processor.
  pose proof (connect_heads_prefix tasks rl _ [] Hacc) as Hp.
  rewrite !app_nil_r in Hp. by rewrite Hp.
Qed.

(** X8.  [connect_heads_with_processor] completes exactly when the task
    table has, for the task of every head, an entry whose label list is a
    list (non-empty when labels are required); the model is then the same
    model with, on every head, [label_tensor_name], [label_list] and
    [metric] set to those of its task, and nothing else changed. *)
Theorem connect_success_binds_every_head (self : Model)
    (tasks : gmap string task) (require_labels : bool) :
  (connect_heads_with_processor self tasks require_labels).2 = Ok tt ↔
  Forall (head_accepted tasks require_labels) (prediction_heads self) ∧
  (connect_heads_with_processor self tasks require_labels).1 =
    with_heads self (bind_head tasks <$> prediction_heads self).
Proof.
  split.
  - apply connect_ok_result.
  - intros [Hacc _]. by rewrite (connect_accepted_ok _ _ _ Hacc).
Qed.

(** X9.  On a model whose heads are distinct objects: if head [k] is the
    first whose task is not in the table, the call raises [KeyError] with
    that task's name; the heads before [k] are bound to their tasks and head
    [k] and the heads after it are as they were. *)
Theorem connect_unknown_task_raises_key_error (self : Model)
    (tasks : gmap string task) (require_labels : bool) (k : nat) (h : Head) :
  NoDup (ph_id <$> prediction_heads self) →
  prediction_heads self !! k = Some h →
  tasks !! task_name h = None →
  Forall (head_accepted tasks require_labels) (take k (prediction_heads self)) →
  connect_heads_with_processor self tasks require_labels =
    (with_heads self ((bind_head tasks <$> take k (prediction_heads self)) ++
                      drop k (prediction_heads self)),
     Raise (KeyError (task_name h))).
Proof.
  intros _ Hk Hnone Hacc. unfold connect_heads_with_processor.
  rewrite <- (take_drop_middle _ _ _ Hk) at 1.
  rewrite (connect_heads_prefix _ _ _ _ Hacc).
  rewrite (drop_S _ _ _ Hk).
  cbn [connect_heads]. unfold connect_head. rewrite Hnone. reflexivity.
Qed.

(** X10.  On a model whose heads are distinct objects, and with labels
    required: if head [k] is the first whose task has an
    empty or missing label list, the call raises the missing-labels
    exception naming that task, and it leaves head [k] half connected: its
    [label_tensor_name] is already set (so the check of [logits_to_loss]
    passes for it), its [label_list] and [metric] are as before.  Earlier
    heads are bound, later heads untouched. *)
Theorem connect_missing_labels_half_connects (self : Model)
    (tasks : gmap string task) (k : nat) (h : Head) (t : task) :
  NoDup (ph_id <$> prediction_heads self) →
  prediction_heads self !! k = Some h →
  tasks !! task_name h = Some t →
  label_list_is_falsy (t_label_list t) = true →
  Forall (head_accepted tasks true) (take k (prediction_heads self)) →
  let h' := set_label_tensor_name h (t_label_tensor_name t) in
  connect_heads_with_processor self tasks true =
    (with_heads self ((bind_head tasks <$> take k (prediction_heads self)) ++
                      h' :: drop (S k) (prediction_heads self)),
     Raise (Exception ("The task '" ++ task_name h ++
                       "' is missing a valid set of labels"))) ∧
  connected h' ∧ label_list h' = label_list h ∧ metric h' = metric h.
Proof.
  intros _ Hk Ht Hfalsy Hacc h'. split; [|split; [by eexists | done]].
  unfold connect_heads_with_processor.
  rewrite <- (take_drop_middle _ _ _ Hk) at 1.
  rewrite (connect_heads_prefix _ _ _ _ Hacc).
  cbn [connect_heads]. unfold connect_head. rewrite Ht, Hfalsy. reflexivity.
Qed.
Lemma task_name_bind_head (tasks : gmap string task) (h : Head) :
  task_name (bind_head tasks h) = task_name h.
Proof. unfold bind_head. by destruct (tasks !! task_name h). Qed.

Lemma connect_head_outcome (tasks : gmap string task) (rl : bool) (h h' : Head) :
  task_name h = task_name h' →
  (connect_head tasks rl h).2 = (connect_head tasks rl h').2.
Proof.
  intros Hn. unfold connect_head. rewrite Hn.
  destruct (tasks !! task_name h') as [t|]; [|done].
  destruct (label_list_is_falsy (t_label_list t) && rl); cbn; [by rewrite Hn|].
  by destruct (t_label_list t).
Qed.

Lemma connect_heads_outcome (tasks : gmap string task) (rl : bool)
    (f : Head → Head) (heads : list Head) :
  (∀ h, task_name (f h) = task_name h) →
  (connect_heads tasks rl (f <$> heads)).2 = (connect_heads tasks rl heads).2.
Proof.
  intros Hf. induction heads as [|h heads IH]; [done|].
  cbn [fmap list_fmap connect_heads].
  pose proof (connect_head_outcome tasks rl (f h) h (Hf h)) as Hh.
  destruct (connect_head tasks rl (f h)) as [h1 r1].
  destruct (connect_head tasks rl h) as [h2 r2]. simpl in Hh. subst r2.
  destruct r1 as [[]|e]; [|done].
  change (list_fmap _ _ f heads) with (f <$> heads).
  destruct (connect_heads tasks rl (f <$> heads)) as [hs1 r1].
  destruct (connect_heads tasks rl heads) as [hs2 r2]. by simpl in *.
Qed.

Lemma bind_head_twice (tasks1 tasks2 : gmap string task) (h : Head) :
  is_Some (tasks2 !! task_name h) →
  bind_head tasks2 (bind_head tasks1 h) = bind_head tasks2 h.
Proof.
  intros [t Ht]. unfold bind_head at 1 3. rewrite task_name_bind_head, Ht.
  unfold bind_head. by destruct (tasks1 !! task_name h).
Qed.

(** X11.  Connecting again overrides: after a completed connection to
    [tasks1], connecting to [tasks2] has the outcome it has on the model that
    was never connected, and when it completes, it gives the same model: no
    attribute of the first connection survives. *)
Theorem connect_last_call_wins (self : Model) (tasks1 tasks2 : gmap string task)
    (rl1 rl2 : bool) :
  (connect_heads_with_processor self tasks1 rl1).2 = Ok tt →
  let self1 := (connect_heads_with_processor self tasks1 rl1).1 in
  (connect_heads_with_processor self1 tasks2 rl2).2 =
    (connect_heads_with_processor self tasks2 rl2).2 ∧
  ((connect_heads_with_processor self tasks2 rl2).2 = Ok tt →
   (connect_heads_with_processor self1 tasks2 rl2).1 =
     (connect_heads_with_processor self tasks2 rl2).1).
Proof.
  intros Hok self1.
  destruct (connect_ok_result self tasks1 rl1 Hok) as [_ Hself1].
  fold self1 in Hself1.
  assert (Hout : (connect_heads_with_processor self1 tasks2 rl2).2 =
                 (connect_heads_with_processor self tasks2 rl2).2).
  { unfold connect_heads_with_processor. rewrite Hself1.
    cbn [prediction_heads with_heads].
    pose proof (connect_heads_outcome tasks2 rl2 (bind_head tasks1)
                  (prediction_heads self) (task_name_bind_head tasks1)) as H.
    destruct (connect_heads tasks2 rl2 (bind_head tasks1 <$> _)) as [hs1 r1].
    by destruct (connect_heads tasks2 rl2 (prediction_heads self)) as [hs2 r2]. }
  split; [exact Hout|]. intros Hok2.
  destruct (connect_ok_result self tasks2 rl2 Hok2) as [Hacc2 ->].
  rewrite <- Hout in Hok2.
  destruct (connect_ok_result self1 tasks2 rl2 Hok2) as [_ ->].
  rewrite Hself1. cbn [prediction_heads with_heads]. unfold with_heads.
  cbn [device language_model1 lm1_output_dims language_model2 lm2_output_dims
       dropout1 dropout2 lm1_output_types lm2_output_types loss_aggregation_fn].
  f_equal. rewrite <- list_fmap_compose. apply Forall_fmap_ext_1.
  eapply Forall_impl; [exact Hacc2|].
  intros h (t & Ht & _). apply bind_head_twice. by eexists.
Qed.

End Connect.

(** ** Loaded models *)

Section Loaded.
Context {scalar ph_config lm_config : Type}.
Variable sadd : scalar → scalar → scalar.
Variable sint : Z → scalar.
Variable dropout_mask : Q → stream → nat → value scalar → value scalar.
Variable LanguageModel_from_config : lm_config → LanguageModel scalar lm_config.
Variable PredictionHead_from_config : ph_config → PredictionHead scalar ph_config.

Local Abbreviation Head := (PredictionHead scalar ph_config).
Local Abbreviation Model := (BiAdaptiveModel scalar ph_config lm_config).
Local Abbreviation World := (world ph_config lm_config).

Local Abbreviation load := (BiAdaptiveModel_load sadd sint LanguageModel_from_config
                              PredictionHead_from_config).

Lemma load_result (cls_name : string) (load_dir : path) (device : string)
    (strict : bool) (lm1_name lm2_name : string)
    (processor : option (gmap string task)) (w w' : World) (m : Model) :
  load cls_name load_dir device strict lm1_name lm2_name processor w = (w', Ok m) →
  ∃ lm1 lm2 heads,
    m = BiAdaptiveModel_init sadd sint lm1 lm2
          (match processor with
           | Some tasks => bind_head tasks <$> heads
           | None => heads
           end) (1 # 10)%Q device None None None ∧
    match processor with
    | Some tasks => Forall (head_accepted tasks true) heads
    | None => True
    end.
Proof.
  unfold BiAdaptiveModel_load. unfold bind at 1. cbn [emit].
  unfold bind at 1.
  destruct (if negb (lm1_name =? "")%string then _ else _) as [w1 [lm1|e]]; [|done].
  unfold bind at 1.
  destruct (if negb (lm2_name =? "")%string then _ else _) as [w2 [lm2|e]]; [|done].
  unfold bind at 1.
  destruct (_get_prediction_head_files load_dir w2) as [w3 [files|e]]; [|done].
  unfold bind at 1.
  destruct (load_heads _ files [] [] w3) as [w4 [heads|e]]; [|done].
  destruct processor as [tasks|].
  - destruct (connect_heads_with_processor _ tasks true) as [m' [[]|e]] eqn:Hc;
      [|done].
    intros [= <- <-]. exists lm1, lm2, heads.
    pose proof (connect_ok_result
      (BiAdaptiveModel_init sadd sint lm1 lm2 heads (1 # 10)%Q device None None None)
      tasks true) as Hs.
    rewrite Hc in Hs. destruct (Hs eq_refl) as [Hacc Hm]. simpl in Hm.
    split; [by rewrite Hm | exact Hacc].
  - intros [= <- <-]. by exists lm1, lm2, heads.
Qed.

Lemma bind_head_bound (tasks : gmap string task) (h : Head) :
  head_accepted tasks true h →
  ∃ t, tasks !! task_name (bind_head tasks h) = Some t ∧
       label_list_is_falsy (t_label_list t) = false ∧
       label_tensor_name (bind_head tasks h) = Some (t_label_tensor_name t) ∧
       label_list (bind_head tasks h) = Some (t_label_list t) ∧
       metric (bind_head tasks h) = Some (t_metric t).
Proof.
  intros (t & Ht & Hacc). exists t. unfold bind_head. rewrite Ht. cbn.
  split_and!; try done.
  unfold task_accepted in Hacc. by destruct (t_label_list t) as [[|? ?]|].
Qed.

(** X12.  Whenever [BiAdaptiveModel.load] is given a processor and returns a
    model, every head of that model carries the [label_tensor_name],
    [label_list] and [metric] of its task, and the label list is
    non-empty. *)
Theorem load_with_processor_connects_heads (cls_name : string) (load_dir : path)
    (device : string) (strict : bool) (lm1_name lm2_name : string)
    (tasks : gmap string task) (w w' : World) (m : Model) :
  load cls_name load_dir device strict lm1_name lm2_name (Some tasks) w = (w', Ok m) →
  Forall (fun h => ∃ t, tasks !! task_name h = Some t ∧
                        label_list_is_falsy (t_label_list t) = false ∧
                        label_tensor_name h = Some (t_label_tensor_name t) ∧
                        label_list h = Some (t_label_list t) ∧
                        metric h = Some (t_metric t))
         (prediction_heads m).
Proof.
  intros Hload. apply load_result in Hload as (lm1 & lm2 & heads & -> & Hacc).
  cbn [prediction_heads BiAdaptiveModel_init].
  apply Forall_fmap. eapply Forall_impl; [exact Hacc|].
  intros h Hh. by apply bind_head_bound.
Qed.

(** X13.  Whatever was saved, a model returned by [BiAdaptiveModel.load]
    has the default mode lists (one [per_sequence] entry each) and dropout
    probability 0.1, so its [forward] returns exactly one entry and runs at
    most the first head, however many heads were loaded. *)
Theorem loaded_model_forwards_one_entry (cls_name : string) (load_dir : path)
    (device : string) (strict : bool) (lm1_name lm2_name : string)
    (processor : option (gmap string task)) (w w' : World) (m : Model) :
  load cls_name load_dir device strict lm1_name lm2_name processor w = (w', Ok m) →
  lm1_output_types m = ["per_sequence"] ∧
  lm2_output_types m = ["per_sequence"] ∧
  dropout_p (dropout1 m) = (1 # 10)%Q ∧
  dropout_p (dropout2 m) = (1 # 10)%Q ∧
  ∀ (kwargs : gmap string (value scalar)) (w1 : World),
    ∃ w2 entry,
      forward dropout_mask m kwargs w1 = (w2, Ok (VList [entry])) ∧
      heads_forwarded (w_trace w2) =
        heads_forwarded (w_trace w1) ++ take 1 (ph_id <$> prediction_heads m).
Proof.
  intros Hload. apply load_result in Hload as (lm1 & lm2 & heads & -> & _).
  split_and!; try reflexivity.
  intros kwargs w1. unfold forward, bind. rewrite forward_lm_run.
  cbn [prediction_heads lm1_output_types lm2_output_types BiAdaptiveModel_init
       default default_output_types as_type_list].
  destruct (match processor with Some _ => _ | None => _ end) as [|h0 [|h1 rest]];
    cbn; (eexists _, _; split; [reflexivity|]); cbn [w_trace after_encoders];
    rewrite !heads_forwarded_app; cbn; by rewrite ?app_nil_r.
Qed.

Lemma ONNXBiAdaptiveModel_load_raises (load_dir : path) (device : string) (w : World) :
  ∃ w' e,
    ONNXBiAdaptiveModel_load PredictionHead_from_config load_dir device w =
      (w', Raise e).
Proof.
  unfold ONNXBiAdaptiveModel_load, bind at 1 2, emit.
  destruct (new_inference_session _ _) as [w1 [session|e]]; [|by eexists _, _].
  unfold bind at 1.
  destruct (_get_prediction_head_files load_dir w1) as [w2 [files|e]];
    [|by eexists _, _].
  unfold bind at 1, unpack2.
  destruct files as [|f1 [|f2 [|f3 files]]]; unfold raise, ret;
    by eexists _, _.
Qed.

(** X14.  The polymorphic [load] on a directory in which [model.onnx] is a
    regular file never returns a model: it always ends in an exception. *)
Theorem load_of_frozen_directory_never_returns (kwargs : load_kwargs)
    (load_dir : path) (w : World) :
  kw_load_dir kwargs = Some load_dir →
  has_onnx_marker w load_dir = true →
  ∃ w' e,
    BaseBiAdaptiveModel_load sadd sint LanguageModel_from_config
      PredictionHead_from_config kwargs w = (w', Raise e).
Proof.
  intros Hdir Hm. unfold BaseBiAdaptiveModel_load. rewrite Hdir.
  unfold bind at 1, ret at 1, bind at 1, is_file, bind at 1, get_fs, ret at 1.
  fold (has_onnx_marker w load_dir). rewrite Hm.
  unfold class_load. rewrite subclasses_lookup_onnx, Hdir.
  destruct (kw_device kwargs) as [device|]; [|by eexists _, _].
  unfold bind.
  destruct (ONNXBiAdaptiveModel_load_raises load_dir device w) as (w' & e & ->).
  by eexists _, _.
Qed.

(** X15.  The polymorphic [load] reads [load_dir] from its keyword arguments
    before anything else: without it the call raises [KeyError] and enters no
    class's [load]; with it but without [device], the selected class's
    [load] refuses the call for the missing argument, the state
    unchanged. *)
Theorem load_missing_arguments (kwargs : load_kwargs) (w : World) :
  (kw_load_dir kwargs = None →
     BaseBiAdaptiveModel_load sadd sint LanguageModel_from_config
       PredictionHead_from_config kwargs w = (w, Raise (KeyError "load_dir"))) ∧
  (is_Some (kw_load_dir kwargs) → kw_device kwargs = None →
     BaseBiAdaptiveModel_load sadd sint LanguageModel_from_config
       PredictionHead_from_config kwargs w =
       (w, Raise (missing_argument "device"))).
Proof.
  unfold BaseBiAdaptiveModel_load. split.
  - by intros ->.
  - intros [d Hd] Hdev. rewrite Hd.
    unfold bind at 1, ret at 1, bind at 1, is_file, bind at 1, get_fs, ret at 1.
    unfold class_load.
    destruct (match fs_lookup _ _ with Some (File _) => true | _ => false end).
    + by rewrite subclasses_lookup_onnx, Hd, Hdev.
    + by rewrite subclasses_lookup_trainable, Hd, Hdev.
Qed.

End Loaded.

(** ** Calls and effects of the loops *)

Section Effects.
Context {scalar ph_config lm_config : Type}.
Variable sadd : scalar → scalar → scalar.
Variable sint : Z → scalar.
Variable dropout_mask : Q → stream → nat → value scalar → value scalar.
Variable stack : value scalar → result (list (value scalar)).

Local Abbreviation Head := (PredictionHead scalar ph_config).
Local Abbreviation Model := (BiAdaptiveModel scalar ph_config lm_config).
Local Abbreviation World := (world ph_config lm_config).
Local Abbreviation Kwargs := (gmap string (value scalar)).

Lemma log_events_nil (w : World) : log_events w [] = w.
Proof. destruct w. unfold log_events. simpl. by rewrite app_nil_r. Qed.

Lemma log_events_app (w : World) (es1 es2 : list event) :
  log_events (log_events w es1) es2 = log_events w (es1 ++ es2).
Proof. unfold log_events. simpl. by rewrite app_assoc. Qed.

Lemma emit_log (e : event) (w : World) : emit e w = (log_events w [e], Ok tt).
Proof. reflexivity. Qed.

Lemma loss_loop_run (zipped : list (Head * value scalar)) (kwargs : Kwargs) :
  Forall (fun hl => connected hl.1) zipped →
  ∀ acc (w : World),
    logits_to_loss_per_head_loop zipped kwargs acc w =
    (log_events w ((fun hl => HeadLogitsToLoss (ph_id hl.1)) <$> zipped),
     Ok (acc ++ ((fun hl => ph_logits_to_loss hl.1 (kw "logits" hl.2 kwargs))
                   <$> zipped))).
Proof.
  induction 1 as [|[h l] zipped [name Hname] _ IH]; intros acc w.
  - cbn. by rewrite app_nil_r, log_events_nil.
  - cbn [logits_to_loss_per_head_loop]. simpl in Hname. rewrite Hname.
    unfold bind at 1 2. cbn [ret]. rewrite emit_log, IH, log_events_app.
    by rewrite <- app_assoc.
Qed.

Lemma zip_take_l {A B} (la : list A) (lb : list B) :
  zip la lb = zip (take (length lb) la) lb.
Proof.
  revert lb. induction la as [|a la IH]; intros [|b lb]; simpl; try done.
  by rewrite <- IH.
Qed.

(** X16.  [logits_to_loss_per_head] pairs heads with logits entries and
    stops with the shorter sequence: when the heads that have a logits entry
    are connected, it returns one loss per pair, in head order, having called
    exactly those heads; heads beyond the logits are neither checked nor
    called. *)
Theorem logits_to_loss_per_head_pairs_heads_with_logits (self : Model)
    (logits : list (value scalar)) (kwargs : Kwargs) (w : World) :
  Forall connected (take (length logits) (prediction_heads self)) →
  logits_to_loss_per_head self logits kwargs w =
    (log_events w (HeadLogitsToLoss <$>
                     (ph_id <$> take (length logits) (prediction_heads self))),
     Ok (per_head_losses (prediction_heads self) logits kwargs)) ∧
  length (per_head_losses (prediction_heads self) logits kwargs) =
    length (prediction_heads self) `min` length logits.
Proof.
  intros Hconn. split.
  - unfold logits_to_loss_per_head. rewrite loss_loop_run.
    + unfold per_head_losses. do 2 f_equal.
      rewrite <- list_fmap_compose.
      rewrite (zip_take_l (prediction_heads self) logits) at 1.
      rewrite <- (fst_zip (take (length logits) (prediction_heads self)) logits) at 2
        by (rewrite length_take; lia).
      by rewrite <- list_fmap_compose.
    + apply Forall_forall. intros [h l] Hin. simpl.
      rewrite zip_take_l in Hin. apply elem_of_zip_l in Hin.
      by apply (proj1 (Forall_forall _ _) Hconn).
  - unfold per_head_losses. by rewrite length_fmap, length_zip.
Qed.

(** X17.  With the default aggregation, a model without heads, or a call
    without logits entries, has the loss [0], the Python int, and no head is
    checked or called. *)
Theorem logits_to_loss_without_pairs_is_zero (self : Model)
    (logits : list (value scalar)) (global_step : value scalar)
    (kwargs : Kwargs) (w : World) :
  loss_aggregation_fn self = loss_per_head_sum sadd sint →
  prediction_heads self = [] ∨ logits = [] →
  logits_to_loss self logits global_step kwargs w = (w, Ok (VInt 0)).
Proof.
  intros Hagg Hnone. unfold logits_to_loss, logits_to_loss_per_head.
  assert (Hz : zip (prediction_heads self) logits = []).
  { destruct Hnone as [-> | ->]; [done|]. by destruct (prediction_heads self). }
  rewrite Hz, Hagg. reflexivity.
Qed.

Lemma prepare_labels_loop_run (heads : list Head) (kwargs : Kwargs) :
  ∀ acc (w : World),
    prepare_labels_loop heads kwargs acc w =
    (log_events w (HeadPrepareLabels <$> (ph_id <$> heads)),
     Ok (acc ++ ((fun h => ph_prepare_labels h kwargs) <$> heads))).
Proof.
  induction heads as [|h heads IH]; intros acc w.
  - cbn. by rewrite app_nil_r, log_events_nil.
  - cbn [prepare_labels_loop]. unfold bind. rewrite emit_log, IH, log_events_app.
    by rewrite <- app_assoc.
Qed.

(** X18.  [prepare_labels] calls every head once, in order, each on the same
    keyword arguments, and returns the heads' label tensors in head
    order. *)
Theorem prepare_labels_one_per_head (self : Model) (kwargs : Kwargs) (w : World) :
  prepare_labels self kwargs w =
    (log_events w (HeadPrepareLabels <$> (ph_id <$> prediction_heads self)),
     Ok ((fun h => ph_prepare_labels h kwargs) <$> prediction_heads self)).
Proof. unfold prepare_labels. by rewrite prepare_labels_loop_run. Qed.

(** X19.  When each head is paired with a supported mode, the effects of
    [forward] are: encoder 1 runs once, then encoder 2 once, then for each
    head in order one dropout draw on the first pooled output, one on the
    second, and the head's forward computation; each dropout counter
    advances by the number of heads, and the file system is not touched. *)
Theorem forward_effects (self : Model) (kwargs : Kwargs) (w : World) :
  modes_cover_heads self →
  let w' := (forward dropout_mask self kwargs w).1 in
  w_trace w' =
    w_trace w ++ [EncoderForward LM1; EncoderForward LM2] ++
    concat (imap (fun i h => [DropoutDraw LM1 (w_draws1 w + i);
                              DropoutDraw LM2 (w_draws2 w + i);
                              HeadForward (ph_id h)]) (prediction_heads self)) ∧
  w_draws1 w' = w_draws1 w + length (prediction_heads self) ∧
  w_draws2 w' = w_draws2 w + length (prediction_heads self) ∧
  w_fs w' = w_fs w.
Proof.
  intros (Hl1 & Hl2 & Hv1 & Hv2). cbv zeta.
  unfold forward, bind. rewrite forward_lm_run.
  destruct (prediction_heads self) as [|h0 hs] eqn:Hheads.
  - cbn. rewrite <- app_assoc, !Nat.add_0_r. by cbn.
  - set (heads := h0 :: hs) in *.
    replace (0 <? length heads) with true by done.
    rewrite zip3_take.
    set (zipped := zip3 heads _ _).
    assert (Hall : Forall both_per_sequence zipped).
    { apply (zip3_Forall (fun t => is_per_sequence t = true)
                         (fun t => is_per_sequence t = true)); assumption. }
    assert (Hfst : (fun t => t.1.1) <$> zipped = heads).
    { apply zip3_firsts; rewrite length_take; lia. }
    rewrite <- (app_nil_r zipped), (forward_heads_app _ _ _ _ _ [] Hall).
    cbn [forward_heads ret app fst after_heads after_encoders
         w_trace w_draws1 w_draws2 w_fs].
    rewrite <- Hfst at 1 2 3. rewrite length_fmap, imap_fmap.
    split_and!; try reflexivity.
    by rewrite <- !app_assoc.
Qed.

(** X28.  [forward] on a model with at least one head serves as many heads
    as the shortest of the head list and the two mode lists has entries:
    when the modes paired with heads are supported, it returns exactly that
    many logits entries, those of the first heads in order, and runs no
    other head. *)
Theorem forward_serves_shortest_prefix (self : Model)
    (kwargs : gmap string (value scalar)) (w : World) :
  let m := length (prediction_heads self) `min`
           (length (lm1_output_types self) `min` length (lm2_output_types self)) in
  let p1 := (lm_call (language_model1 self) kwargs).1 in
  let p2 := (lm_call (language_model2 self) kwargs).1 in
  prediction_heads self ≠ [] →
  Forall (fun t => is_per_sequence t = true) (take m (lm1_output_types self)) →
  Forall (fun t => is_per_sequence t = true) (take m (lm2_output_types self)) →
  ∃ w' entries,
    forward dropout_mask self kwargs w = (w', Ok (VList entries)) ∧
    length entries = m ∧
    (∀ i h, i < m → prediction_heads self !! i = Some h →
            entries !! i = Some (head_logits dropout_mask self p1 p2 w i h)) ∧
    heads_forwarded (w_trace w') =
      heads_forwarded (w_trace w) ++ (ph_id <$> take m (prediction_heads self)).
Proof.
  intros m p1 p2 Hne Hv1 Hv2.
  unfold forward, bind. rewrite forward_lm_run. fold p1 p2.
  replace (0 <? length (prediction_heads self)) with true
    by (by destruct (prediction_heads self)).
  rewrite zip3_take_min. fold m.
  set (zipped := zip3 _ _ _).
  assert (Hall : Forall both_per_sequence zipped).
  { apply (zip3_Forall (fun t => is_per_sequence t = true)
                       (fun t => is_per_sequence t = true)); assumption. }
  assert (Hfst : (fun t => t.1.1) <$> zipped = take m (prediction_heads self)).
  { apply zip3_firsts; rewrite !length_take; lia. }
  rewrite <- (app_nil_r zipped), (forward_heads_app _ _ _ _ _ [] Hall).
  cbn [forward_heads ret app].
  eexists _, _. split; [reflexivity|]. split_and!.
  - rewrite length_imap, <- (length_fmap (fun t => t.1.1)), Hfst, length_take. lia.
  - intros i h Hi Hh. rewrite list_lookup_imap.
    assert (Hz : (fun t => t.1.1) <$> zipped !! i = Some h).
    { by rewrite <- list_lookup_fmap, Hfst, lookup_take_lt. }
    destruct (zipped !! i) as [t|]; simplify_eq/=. reflexivity.
  - rewrite heads_forwarded_after. cbn [after_encoders w_trace].
    rewrite !heads_forwarded_app, !app_nil_r. cbn [heads_forwarded omap app].
    rewrite <- Hfst, <- list_fmap_compose. reflexivity.
Qed.

Lemma formatted_preds_loop_run
    (zipped : list (Head * value scalar * value scalar)) (kwargs : Kwargs) :
  ∀ i buckets (w : World),
    formatted_preds_loop i zipped kwargs buckets w =
    (log_events w (HeadFormattedPreds <$> (ph_id <$> ((fun t => t.1.1) <$> zipped))),
     Ok (buckets_after i zipped kwargs buckets)).
Proof.
  induction zipped as [|[[h p] l] rest IH]; intros i buckets w.
  - cbn. by rewrite log_events_nil.
  - cbn [formatted_preds_loop buckets_after]. unfold bind.
    by rewrite emit_log, IH, log_events_app.
Qed.

(** C4, as the code has it.  With more than one head [formatted_preds]
    never returns.  When the collected predictions are there, [stack]
    regroups them and the samples of the baskets can be gathered, every head
    that [stack] gave a share is asked for its formatted predictions, in
    order, and then the call raises [NameError]: it names [pick_single_fn],
    which the module neither defines nor imports.  Neither the merged result
    nor the list of per-head buckets is returned. *)
Theorem formatted_preds_many_heads_raises (heads : list Head)
    (logits : value scalar) (lm1 lm2 : LanguageModel scalar lm_config)
    (kwargs : Kwargs) (w : World) :
  1 < length heads →
  ∃ w' e,
    formatted_preds stack heads logits lm1 lm2 kwargs w = (w', Raise e) ∧
    ∀ preds preds_for_heads samples,
      kwargs !! "preds" = Some preds →
      stack preds = Ok preds_for_heads →
      collect_samples kwargs = Ok samples →
      e = NameError "pick_single_fn" ∧
      w' = log_events w
             (HeadFormattedPreds <$>
                (ph_id <$> take (length preds_for_heads) heads)).
Proof.
  intros Hn. unfold formatted_preds.
  destruct (length heads) as [|[|n]] eqn:En; [lia | lia |].
  unfold bind at 1 2. unfold kwargs_get, lift at 1.
  destruct (kwargs !! "preds") as [preds|];
    [|eexists _, _; split; [reflexivity | by intros ? ? ? ?]].
  unfold bind at 1. unfold lift at 1.
  destruct (stack preds) as [preds_for_heads|e] eqn:Hstack;
    [|eexists _, _; split; [reflexivity | intros ? ? ? [= <-] ?; congruence]].
  unfold bind at 1. unfold lift at 1.
  destruct (collect_samples kwargs) as [samples|e] eqn:Hsamples;
    [|eexists _, _; split; [reflexivity | intros ? ? ? _ _ ?; congruence]].
  unfold bind at 1. rewrite formatted_preds_loop_run.
  unfold bind at 1, unbound_name, raise.
  eexists _, _. split; [reflexivity|].
  intros ? pfh ? [= <-] Hs _. split; [done|].
  rewrite <- En, zip3_firsts_replicate. congruence.
Qed.

Lemma rmap_Forall2 {A B} (f : A → result B) (l : list A) (bs : list B) :
  Forall2 (fun a b => f a = Ok b) l bs → rmap f l = Ok bs.
Proof.
  induction 1 as [|a b l bs Hab _ IH]; [done|].
  cbn [rmap]. by rewrite Hab, IH.
Qed.

Lemma flatten_collected_preds_concat (kwargs : Kwargs) (preds : value scalar)
    (ys firsts : list (value scalar)) (itemss : list (list (value scalar))) :
  kwargs !! "preds" = Some preds →
  py_iter preds = Ok ys →
  Forall2 (fun y first => py_getitem y 0 = Ok first) ys firsts →
  Forall2 (fun first items => py_iter first = Ok items) firsts itemss →
  flatten_collected_preds kwargs = Ok (<["preds" := VList (concat itemss)]> kwargs).
Proof.
  intros Hp Hi H1 H2. unfold flatten_collected_preds, kwargs_get.
  rewrite Hp. cbn [rbind]. rewrite Hi. cbn [rbind].
  rewrite (rmap_Forall2 _ _ _ H1). cbn [rbind].
  by rewrite (rmap_Forall2 _ _ _ H2).
Qed.

Lemma formatted_preds_one_head_run (h : Head) (logits l : value scalar)
    (lm1 lm2 : LanguageModel scalar lm_config) (kwargs kwargs' : Kwargs) (w : World) :
  match flatten_collected_preds kwargs with
  | Ok k => k = kwargs'
  | Raise (KeyError _) => kwargs' = <["preds" := VNone]> kwargs
  | Raise _ => False
  end →
  py_getitem logits 0 = Ok l →
  formatted_preds stack [h] logits lm1 lm2 kwargs w =
    (log_events w [HeadFormattedPreds (ph_id h)],
     Ok (as_prediction_list (ph_formatted_preds h (kw "logits" l kwargs')))).
Proof.
  intros Hk Hl. unfold formatted_preds. cbn [length].
  unfold bind at 1 2.
  assert (Hflat : (match flatten_collected_preds kwargs with
                   | Ok kwargs'0 => ret kwargs'0
                   | Raise (KeyError _) => ret (<["preds" := VNone]> kwargs)
                   | Raise e => raise e
                   end : M ph_config lm_config Kwargs) w = (w, Ok kwargs')).
  { destruct (flatten_collected_preds kwargs) as [k|[]]; try done; by subst. }
  rewrite Hflat. unfold bind at 1. cbn [lookup list_lookup ret].
  unfold bind at 1. unfold lift at 1. rewrite Hl.
  unfold bind at 1. rewrite emit_log.
  unfold as_prediction_list.
  destruct (ph_formatted_preds h _) as [| | | | | |items|kvs|]; try reflexivity.
  by destruct (bool_decide _).
Qed.

(** X20.  With one head and predictions collected under [preds], the head
    is called once, on [logits[0]] and on [preds] replaced by the
    concatenation of the first components of the collected entries; what is
    returned is the head's result if it is a list, the one-element list of it
    if it is a dict with key [predictions], and the empty list otherwise. *)
Theorem formatted_preds_one_head_flattens_collected (h : Head)
    (logits l : value scalar) (lm1 lm2 : LanguageModel scalar lm_config)
    (kwargs : Kwargs) (w : World) (preds : value scalar)
    (ys firsts : list (value scalar)) (itemss : list (list (value scalar))) :
  kwargs !! "preds" = Some preds →
  py_iter preds = Ok ys →
  Forall2 (fun y first => py_getitem y 0 = Ok first) ys firsts →
  Forall2 (fun first items => py_iter first = Ok items) firsts itemss →
  py_getitem logits 0 = Ok l →
  formatted_preds stack [h] logits lm1 lm2 kwargs w =
    (log_events w [HeadFormattedPreds (ph_id h)],
     Ok (as_prediction_list
           (ph_formatted_preds h
              (kw "logits" l (<["preds" := VList (concat itemss)]> kwargs))))).
Proof.
  intros Hp Hi H1 H2 Hl. apply formatted_preds_one_head_run; [|done].
  by rewrite (flatten_collected_preds_concat _ _ _ _ _ Hp Hi H1 H2).
Qed.

(** X21.  Without the key [preds]: a model with one head calls the head
    with [preds=None] and returns its result as a list; a model with several
    heads raises [KeyError] for [preds] and calls no head. *)
Theorem formatted_preds_without_collected_preds (heads : list Head)
    (logits : value scalar) (lm1 lm2 : LanguageModel scalar lm_config)
    (kwargs : Kwargs) (w : World) :
  kwargs !! "preds" = None →
  (∀ h l, heads = [h] → py_getitem logits 0 = Ok l →
     formatted_preds stack heads logits lm1 lm2 kwargs w =
       (log_events w [HeadFormattedPreds (ph_id h)],
        Ok (as_prediction_list
              (ph_formatted_preds h (kw "logits" l (<["preds" := VNone]> kwargs)))))) ∧
  (1 < length heads →
     formatted_preds stack heads logits lm1 lm2 kwargs w =
       (w, Raise (KeyError "preds"))).
Proof.
  intros Hp. split.
  - intros h l -> Hl. apply formatted_preds_one_head_run; [|done].
    unfold flatten_collected_preds, kwargs_get. by rewrite Hp.
  - intros Hn. unfold formatted_preds.
    destruct (length heads) as [|[|n]]; [lia | lia |].
    unfold bind at 1 2, lift at 1, kwargs_get. by rewrite Hp.
Qed.

End Effects.

(** ** Vocabulary check, conversions and the frozen backend *)

Section Conversion.
Context {scalar ph_config lm_config : Type}.
Variable sadd : scalar → scalar → scalar.
Variable sint : Z → scalar.
Variable dropout_mask : Q → stream → nat → value scalar → value scalar.
Variable LanguageModel_from_config : lm_config → LanguageModel scalar lm_config.
Variable num_embeddings : LanguageModel scalar lm_config → nat.
Variable layer_dims : PredictionHead scalar ph_config → option (list nat).
Variable model_type : PredictionHead scalar ph_config → option string.
Variable to_numpy : value scalar → result (value scalar).
Variable onnx_run :
  onnx_session → gmap string (value scalar) → result (list (value scalar)).
Variable from_numpy : value scalar → string → result (value scalar).

Local Abbreviation Head := (PredictionHead scalar ph_config).
Local Abbreviation Model := (BiAdaptiveModel scalar ph_config lm_config).
Local Abbreviation World := (world ph_config lm_config).
Local Abbreviation Kwargs := (gmap string (value scalar)).

(** X22.  [verify_vocab_size] passes exactly when the first size is the
    embedding count of encoder 1 and the second that of encoder 2.  It fails
    on encoder 1 first; the message of the failure on encoder 2 prints the
    first tokenizer's size, not the second's, beside the embedding count of
    encoder 2. *)
Theorem verify_vocab_size_checks_both (self : Model) (vocab_size1 vocab_size2 : nat) :
  let n1 := num_embeddings (language_model1 self) in
  let n2 := num_embeddings (language_model2 self) in
  (verify_vocab_size num_embeddings self vocab_size1 vocab_size2 = Ok tt ↔
     vocab_size1 = n1 ∧ vocab_size2 = n2) ∧
  (vocab_size1 ≠ n1 →
     verify_vocab_size num_embeddings self vocab_size1 vocab_size2 =
       Raise (vocab_size_mismatch vocab_size1 n1)) ∧
  (vocab_size1 = n1 → vocab_size2 ≠ n2 →
     verify_vocab_size num_embeddings self vocab_size1 vocab_size2 =
       Raise (vocab_size_mismatch vocab_size1 n2)).
Proof.
  intros n1 n2. unfold verify_vocab_size. fold n1 n2.
  destruct (Nat.eqb_spec vocab_size1 n1) as [H1|H1]; cbn [negb];
    [destruct (Nat.eqb_spec vocab_size2 n2) as [H2|H2]; cbn [negb]|];
    (split; [split; [try done; intros _; by split | by intros [? ?]]
            | split; intros; done]).
Qed.


(** X24.  [convert_from_transformers] never returns a model.  Once both
    encoders are loaded, task type [text_similarity] fails in the
    constructor call, which passes the keyword [lm_output_types] that
    [__init__] does not have; any other task type is refused as not
    implemented.  The processor is never reached. *)
Theorem convert_from_transformers_never_returns (path1 path2 : path)
    (device task_type : string) (processor : option (gmap string task)) (w : World) :
  ∃ w' e,
    convert_from_transformers sadd sint LanguageModel_from_config
      path1 path2 device task_type processor w = (w', Raise e) ∧
    ∀ w1 lm1 w2 lm2,
      LanguageModel_load LanguageModel_from_config path1 w = (w1, Ok lm1) →
      LanguageModel_load LanguageModel_from_config path2 w1 = (w2, Ok lm2) →
      w' = w2 ∧
      e = if (task_type =? "text_similarity")%string
          then TypeError "__init__() got an unexpected keyword argument 'lm_output_types'"
          else NotImplementedError
                 ("Huggingface's transformer models of type " ++ task_type ++
                  " are not supported yet for BiAdaptive Models").
Proof.
  unfold convert_from_transformers, bind at 1.
  destruct (LanguageModel_load _ path1 w) as [w1 [lm1|e1]] eqn:Hlm1;
    [|eexists _, _; split; [reflexivity | intros; discriminate]].
  unfold bind at 1.
  destruct (LanguageModel_load _ path2 w1) as [w2 [lm2|e2]] eqn:Hlm2;
    [|eexists _, _; split; [reflexivity | intros ? ? ? ? [= <- <-] ?; congruence]].
  unfold bind at 1.
  destruct (task_type =? "text_similarity")%string.
  - eexists _, _. split; [reflexivity|].
    intros ? ? ? ? [= <- <-] ?. split; [congruence | reflexivity].
  - eexists _, _. split; [reflexivity|].
    intros ? ? ? ? [= <- <-] ?. split; [congruence | reflexivity].
Qed.

(** X25.  When [ONNXBiAdaptiveModel.forward] returns, the keyword arguments
    held [input_ids], [padding_mask] and [segment_ids], and the result is a
    list of exactly one logits entry, whatever the number of heads; so
    [logits_to_preds] on it gives a prediction for the first head only. *)
Theorem onnx_forward_single_entry (self : ONNXBiAdaptiveModel scalar ph_config)
    (kwargs : Kwargs) (logits : list (value scalar)) :
  ONNXBiAdaptiveModel_forward to_numpy onnx_run from_numpy self kwargs = Ok logits →
  is_Some (kwargs !! "input_ids") ∧
  is_Some (kwargs !! "padding_mask") ∧
  is_Some (kwargs !! "segment_ids") ∧
  length logits = 1 ∧
  ∀ (kw' : Kwargs) (w : World),
    (logits_to_preds (onnx_prediction_heads self) logits kw' w).2 =
    Ok (take 1 ((fun hl => ph_logits_to_preds hl.1 (kw "logits" hl.2 kw'))
                  <$> zip (onnx_prediction_heads self) logits)).
Proof.
  unfold ONNXBiAdaptiveModel_forward, kwargs_get.
  destruct (kwargs !! "input_ids") as [v1|]; [|done]. cbn [rbind].
  destruct (to_numpy v1) as [a1|]; [|done]. cbn [rbind].
  destruct (kwargs !! "padding_mask") as [v2|]; [|done]. cbn [rbind].
  destruct (to_numpy v2) as [a2|]; [|done]. cbn [rbind].
  destruct (kwargs !! "segment_ids") as [v3|]; [|done]. cbn [rbind].
  destruct (to_numpy v3) as [a3|]; [|done]. cbn [rbind].
  destruct (onnx_run _ _) as [res|]; [|done]. cbn [rbind].
  destruct (first_output res) as [r0|]; [|done]. cbn [rbind].
  destruct (from_numpy r0 _) as [t|]; [|done]. cbn [rbind].
  intros [= <-]. split_and!; try done.
  intros kw' w. unfold logits_to_preds. rewrite logits_to_preds_loop_run.
  cbn [app]. f_equal.
  by destruct (onnx_prediction_heads self) as [|h0 [|h1 hs]].
Qed.

(** X26.  [ONNXBiAdaptiveModel.forward] reads [input_ids], [padding_mask]
    and [segment_ids] and nothing else: two calls whose keyword arguments
    agree on these three keys have the same outcome. *)
Theorem onnx_forward_reads_three_inputs (self : ONNXBiAdaptiveModel scalar ph_config)
    (kwargs1 kwargs2 : Kwargs) :
  kwargs1 !! "input_ids" = kwargs2 !! "input_ids" →
  kwargs1 !! "padding_mask" = kwargs2 !! "padding_mask" →
  kwargs1 !! "segment_ids" = kwargs2 !! "segment_ids" →
  ONNXBiAdaptiveModel_forward to_numpy onnx_run from_numpy self kwargs1 =
  ONNXBiAdaptiveModel_forward to_numpy onnx_run from_numpy self kwargs2.
Proof.
  intros H1 H2 H3. unfold ONNXBiAdaptiveModel_forward, kwargs_get.
  by rewrite H1, H2, H3.
Qed.

(** X27.  [ONNXWrapper.forward] takes the first three positional arguments
    as [input_ids], [padding_mask] and [segment_ids] and ignores the rest;
    with fewer than three it raises [IndexError] before any encoder
    runs. *)
Theorem onnx_wrapper_forward_positional (self : Model) (batch : list (value scalar))
    (w : World) :
  (length batch < 3 →
     ONNXWrapper_forward dropout_mask self batch w =
       (w, Raise (IndexError "tuple index out of range"))) ∧
  (∀ b0 b1 b2 rest, batch = b0 :: b1 :: b2 :: rest →
     ONNXWrapper_forward dropout_mask self batch w =
       forward dropout_mask self
         (<["segment_ids" := b2]> (<["padding_mask" := b1]> (<["input_ids" := b0]> ∅))) w).
Proof.
  split.
  - intros Hlen. destruct batch as [|b0 [|b1 [|b2 rest]]]; simpl in Hlen;
      try lia; reflexivity.
  - by intros b0 b1 b2 rest ->.
Qed.

End Conversion.

(** * The model on concrete inputs *)

(** C1, witness: two heads with valid modes give two entries. *)
Lemma forward_one_entry_per_head_witness :
  modes_cover_heads Demo.two_head_model ∧
  ∃ w' entries,
    forward Demo.tagging_dropout Demo.two_head_model ∅ Demo.w0 =
      (w', Ok (VList entries)) ∧
    length entries = 2.
Proof.
  assert (H : modes_cover_heads Demo.two_head_model).
  { unfold modes_cover_heads. cbn. split_and!; try lia; by repeat constructor. }
  split; [exact H|].
  destruct (forward_one_entry_per_head Demo.tagging_dropout Demo.two_head_model
              ∅ Demo.w0 H) as (w' & entries & Hrun & _ & Hn & _).
  exists w', entries. split; [exact Hrun|]. by apply Hn.
Defined.

(** C1, counterexample: with no head the result is not the 2-tuple of pooled
    outputs but a one-element list that holds it; and with a head whose mode
    is [per_token] the call returns no entries at all. *)
Lemma forward_claim_counterexample :
  (forward Demo.no_dropout (Demo.mk_model [] None None) ∅ Demo.w0).2 =
    Ok (VList [VTuple [VTensor [1; 2]%Z; VTensor [3; 4]%Z]]) ∧
  (forward Demo.no_dropout (Demo.mk_model [] None None) ∅ Demo.w0).2 ≠
    Ok (VTuple [VTensor [1; 2]%Z; VTensor [3; 4]%Z]) ∧
  (forward Demo.no_dropout
     (Demo.mk_model [Demo.h0] (Some (OneType "per_token")) (Some (OneType "per_token")))
     ∅ Demo.w0).2 =
    Raise (unknown_extraction_strategy "per_token").
Proof. vm_compute. split_and!; [reflexivity | discriminate | reflexivity]. Qed.

(** C2, counterexample: two heads and default arguments give mode lists of
    length one. *)
Lemma init_default_modes_counterexample :
  length (prediction_heads (Demo.mk_model [Demo.h0; Demo.h1] None None)) = 2 ∧
  length (lm1_output_types (Demo.mk_model [Demo.h0; Demo.h1] None None)) = 1 ∧
  length (lm2_output_types (Demo.mk_model [Demo.h0; Demo.h1] None None)) = 1.
Proof. by vm_compute. Qed.

(** C3, witness: the loss vectors [1,2,3] and [4,5,6] of two heads sum to
    [5,7,9]. *)
Lemma logits_to_loss_default_sum_witness :
  (logits_to_loss (Demo.mk_model [Demo.h0; Demo.h1] None None)
     [VTensor [1; 2; 3]%Z; VTensor [4; 5; 6]%Z] VNone ∅ Demo.w0).2 =
  Ok (VTensor [5; 7; 9]%Z).
Proof.
  apply (logits_to_loss_default_sum Z.add id Demo.enc_a Demo.enc_b
           [Demo.h0; Demo.h1] (1 # 10)%Q "cpu" None None
           [VTensor [1; 2; 3]%Z; VTensor [4; 5; 6]%Z] VNone ∅ Demo.w0
           3 [[1; 2; 3]%Z; [4; 5; 6]%Z]).
  - discriminate.
  - reflexivity.
  - repeat constructor; by eexists.
  - by vm_compute.
  - by repeat constructor.
Defined.

(** C4, on two heads of which one exposes [merge_formatted_preds]: both
    heads are asked for their formatted predictions, then the call raises. *)
Lemma formatted_preds_many_heads_raises_witness :
  ∃ w',
    formatted_preds Demo.stack_id [Demo.h0; Demo.h1_merging] (VList [])
      Demo.enc_a Demo.enc_b Demo.two_head_kwargs Demo.w0 =
      (w', Raise (NameError "pick_single_fn")) ∧
    w_trace w' = [HeadFormattedPreds 0; HeadFormattedPreds 1].
Proof.
  destruct (formatted_preds_many_heads_raises Demo.stack_id
              [Demo.h0; Demo.h1_merging] (VList []) Demo.enc_a Demo.enc_b
              Demo.two_head_kwargs Demo.w0) as (w' & e & Hrun & Hwhy).
  - simpl. lia.
  - destruct (Hwhy (VList [VStr "p0"; VStr "p1"]) [VStr "p0"; VStr "p1"] [VInt 7])
      as [He Hw'].
    + by vm_compute.
    + reflexivity.
    + by vm_compute.
    + exists w'. split; [by rewrite <- He | by rewrite Hw'].
Defined.

(** C6, witness: the second head's mode is [per_token]; the call fails
    naming it, after the first head ran. *)
Lemma forward_fails_at_first_unknown_mode_witness :
  ∃ w',
    forward Demo.no_dropout Demo.per_token_model ∅ Demo.w0 =
      (w', Raise (unknown_extraction_strategy "per_token")) ∧
    heads_forwarded (w_trace w') = [0].
Proof.
  apply (forward_fails_at_first_unknown_mode Demo.no_dropout Demo.per_token_model
           ∅ Demo.w0 1 Demo.h1 "per_token" "per_sequence").
  - reflexivity.
  - reflexivity.
  - reflexivity.
  - by repeat constructor.
  - by repeat constructor.
  - by left.
Defined.

(** C6, counterexample: when [forward] fails on the second head's
    [per_token] mode, the first head's forward computation has already run. *)
Lemma forward_per_token_counterexample :
  (forward Demo.no_dropout Demo.per_token_model ∅ Demo.w0).2 =
    Raise (unknown_extraction_strategy "per_token") ∧
  heads_forwarded (w_trace (forward Demo.no_dropout Demo.per_token_model ∅ Demo.w0).1) =
    [ph_id Demo.h0] ∧
  heads_forwarded (w_trace (forward Demo.no_dropout Demo.per_token_model ∅ Demo.w0).1) ≠
    heads_forwarded (w_trace Demo.w0).
Proof. vm_compute. split_and!; [reflexivity | reflexivity | discriminate]. Qed.

(** C7, witness: the second of two heads was never connected. *)
Lemma logits_to_loss_needs_connected_heads_witness :
  ∃ (w' : Demo.state) (h' : Demo.head),
    label_tensor_name h' = None ∧
    logits_to_loss (Demo.mk_model [Demo.h0; Demo.h1_unconnected] None None)
      [VTensor [1; 2; 3]%Z; VTensor [4; 5; 6]%Z] VNone ∅ Demo.w0 =
    (w', Raise (head_not_connected (task_name h'))).
Proof.
  destruct (logits_to_loss_needs_connected_heads
              (Demo.mk_model [Demo.h0; Demo.h1_unconnected] None None)
              [VTensor [1; 2; 3]%Z; VTensor [4; 5; 6]%Z] VNone ∅ Demo.w0
              1 Demo.h1_unconnected)
    as (w' & k' & h' & _ & Hh' & _ & Hrun).
  - reflexivity.
  - reflexivity.
  - simpl. lia.
  - exists w', h'. split; [exact Hh' | exact Hrun].
Defined.

(** C7, counterexample: a head that lacks [label_tensor_name] but is paired
    with no logits entry is not noticed.  With one logits entry for two
    heads, the second never connected, the loss of the first head is
    returned; with no logits entry at all, the loss is [0]. *)
Lemma logits_to_loss_unpaired_head_counterexample :
  label_tensor_name Demo.h1_unconnected = None ∧
  (logits_to_loss (Demo.mk_model [Demo.h0; Demo.h1_unconnected] None None)
     [VTensor [1; 2; 3]%Z] VNone ∅ Demo.w0).2 = Ok (VTensor [1; 2; 3]%Z) ∧
  (logits_to_loss (Demo.mk_model [Demo.h1_unconnected] None None)
     [] VNone ∅ Demo.w0).2 = Ok (VInt 0).
Proof. by vm_compute. Qed.

(** C8, on eleven heads: after [save] and [load] the model has eleven heads
    and the language tags of the saved model, but head 10 stands second:
    [prediction_head_10_config.json] sorts before
    [prediction_head_1_config.json]. *)
Theorem save_load_eleven_heads_reorders :
  task_name <$> Demo.eleven_heads =
    ["task0"; "task1"; "task2"; "task3"; "task4"; "task5"; "task6"; "task7";
     "task8"; "task9"; "task10"] ∧
  match (Demo.save_then_load (Demo.mk_model Demo.eleven_heads None None) Demo.w0).2 with
  | Ok m' =>
      length (prediction_heads m') = 11 ∧
      get_language m' = get_language (Demo.mk_model Demo.eleven_heads None None) ∧
      task_name <$> prediction_heads m' =
        ["task0"; "task10"; "task1"; "task2"; "task3"; "task4"; "task5";
         "task6"; "task7"; "task8"; "task9"]
  | Raise _ => False
  end.
Proof. vm_compute. by split_and!. Qed.

(** C9, witness: a directory with [model.onnx] and head config files goes to
    [ONNXBiAdaptiveModel.load]. *)
Lemma load_selects_backend_by_marker_witness :
  has_onnx_marker Demo.w_frozen ["out"] = true ∧
  classes_loaded
    (w_trace (BaseBiAdaptiveModel_load Z.add id Demo.encoder_from_config
                Demo.head_from_config Demo.load_out_kwargs Demo.w_frozen).1) =
  ["ONNXBiAdaptiveModel"].
Proof.
  assert (Hm : has_onnx_marker Demo.w_frozen ["out"] = true) by (by vm_compute).
  split; [exact Hm|].
  destruct (load_selects_backend_by_marker Z.add id Demo.encoder_from_config
              Demo.head_from_config Demo.load_out_kwargs Demo.w_frozen
              ["out"] "cpu" eq_refl eq_refl) as [Hfrozen _].
  exact (proj2 (Hfrozen Hm)).
Defined.

(** X2, witness: two heads and default modes; only head 0 is served. *)
Lemma forward_default_modes_first_head_only_witness :
  ∃ w',
    forward Demo.no_dropout (Demo.mk_model [Demo.h0; Demo.h1] None None) ∅ Demo.w0 =
      (w', Ok (VList [VTuple [VInt 0; VTensor [1; 2]%Z; VTensor [3; 4]%Z]])) ∧
    heads_forwarded (w_trace w') = [0].
Proof.
  exact (forward_default_modes_first_head_only Demo.no_dropout
           (Demo.mk_model [Demo.h0; Demo.h1] None None) ∅ Demo.w0
           Demo.h0 [Demo.h1] eq_refl eq_refl eq_refl).
Defined.

(** X4, witness: two heads and a task table that knows both tasks. *)
Lemma connect_heads_with_processor_connects_witness :
  (connect_heads_with_processor Demo.unconnected_model Demo.two_tasks true).2 = Ok tt ∧
  Forall connected
    (prediction_heads
       (connect_heads_with_processor Demo.unconnected_model Demo.two_tasks true).1).
Proof.
  destruct (connect_heads_with_processor_connects Demo.unconnected_model
              Demo.two_tasks) as (Hok & _ & Hconn).
  - repeat constructor; eexists; (split; [by vm_compute | reflexivity]).
  - split; [exact Hok | exact Hconn].
Defined.

(** X1, witness: the round trip of a two-head model into a new nested
    directory of a file system that already holds another directory. *)
Lemma save_load_up_to_ten_heads_witness :
  (bind (save Demo.two_head_model ["runs"; "dpr"])
        (fun _ => BiAdaptiveModel_load Z.add id Demo.encoder_from_config
                    Demo.head_from_config "BiAdaptiveModel" ["runs"; "dpr"]
                    "cpu" true "lm1" "lm2" None) Demo.w_frozen).2 =
  Ok (BiAdaptiveModel_init Z.add id
        (Demo.encoder_from_config "en") (Demo.encoder_from_config "de")
        [Demo.head_from_config "task0"; Demo.head_from_config "task1"]
        (1 # 10)%Q "cpu" None None None).
Proof.
  apply (save_load_up_to_ten_heads Z.add id Demo.encoder_from_config
           Demo.head_from_config Demo.two_head_model ["runs"; "dpr"] "cpu"
           Demo.w_frozen).
  - reflexivity.
  - vm_compute. by eexists.
  - simpl. lia.
Defined.

(** X6, witness: saving a one-head model over a saved two-head model leaves
    the second head's config file where it was. *)
Lemma save_keeps_other_entries_witness :
  ("prediction_head_1_config.json" ∉ "lm1" :: "lm2" :: head_file_names 1) ∧
  fs_lookup (w_fs (save Demo.one_head_model ["out"] Demo.w_saved_two).1)
            ["out"; "prediction_head_1_config.json"] =
  fs_lookup (w_fs Demo.w_saved_two) ["out"; "prediction_head_1_config.json"].
Proof.
  assert (H : "prediction_head_1_config.json" ∉ "lm1" :: "lm2" :: head_file_names 1).
  { compute_done. }
  split; [exact H|].
  exact (save_keeps_other_entries Demo.one_head_model ["out"]
           "prediction_head_1_config.json" [] Demo.w_saved_two H).
Defined.


(** X9, witness: the table knows [task0] only; the second head's task is
    unknown. *)
Lemma connect_unknown_task_raises_key_error_witness :
  (connect_heads_with_processor Demo.unconnected_model Demo.task0_only true).2 =
  Raise (KeyError "task1").
Proof.
  rewrite (connect_unknown_task_raises_key_error Demo.unconnected_model
             Demo.task0_only true 1 Demo.h1_unconnected).
  - reflexivity.
  - compute_done.
  - reflexivity.
  - by vm_compute.
  - repeat constructor. eexists. split; by vm_compute.
Defined.

(** X10, witness: [task1] has an empty label list; the second head ends up
    with a [label_tensor_name] and nothing else. *)
Lemma connect_missing_labels_half_connects_witness :
  (connect_heads_with_processor Demo.unconnected_model
     Demo.tasks_without_labels true).2 =
    Raise (Exception "The task 'task1' is missing a valid set of labels") ∧
  connected (set_label_tensor_name Demo.h1_unconnected "other_label_ids").
Proof.
  destruct (connect_missing_labels_half_connects Demo.unconnected_model
              Demo.tasks_without_labels 1 Demo.h1_unconnected
              {| t_label_tensor_name := "other_label_ids";
                 t_label_list := Some [];
                 t_metric := "f1_macro" |})
    as (Hrun & Hconn & _).
  - compute_done.
  - reflexivity.
  - by vm_compute.
  - reflexivity.
  - repeat constructor. eexists. split; by vm_compute.
  - split; [by rewrite Hrun | exact Hconn].
Defined.

(** X11, witness: connecting to a second table after a first gives what the
    second table alone gives. *)
Lemma connect_last_call_wins_witness :
  (connect_heads_with_processor
     (connect_heads_with_processor Demo.unconnected_model Demo.two_tasks true).1
     Demo.other_tasks true).1 =
  (connect_heads_with_processor Demo.unconnected_model Demo.other_tasks true).1.
Proof.
  destruct (connect_last_call_wins Demo.unconnected_model Demo.two_tasks
              Demo.other_tasks true true) as [_ Hsame].
  - by vm_compute.
  - apply Hsame. by vm_compute.
Defined.

(** X12, witness: loading the saved two-head model with a processor that
    knows both tasks. *)
Lemma load_with_processor_connects_heads_witness :
  ∃ (w' : Demo.state) (m : Demo.model),
    Demo.load_out_with Demo.two_tasks Demo.w_saved_two = (w', Ok m) ∧
    Forall connected (prediction_heads m).
Proof.
  assert (H : ∃ (w' : Demo.state) (m : Demo.model),
            Demo.load_out_with Demo.two_tasks Demo.w_saved_two = (w', Ok m)).
  { vm_compute. by eexists _, _. }
  destruct H as (w' & m & H). exists w', m. split; [exact H|].
  eapply Forall_impl;
    [exact (load_with_processor_connects_heads Z.add id Demo.encoder_from_config
              Demo.head_from_config "BiAdaptiveModel" ["out"] "cpu" true "lm1" "lm2"
              Demo.two_tasks Demo.w_saved_two w' m H)|].
  intros h (t & _ & _ & Hname & _). by eexists.
Defined.

(** X13, witness: the two-head model, saved and loaded, forwards one entry. *)
Lemma loaded_model_forwards_one_entry_witness :
  ∃ (w' : Demo.state) (m : Demo.model),
    Demo.load_out "cpu" Demo.w_saved_two = (w', Ok m) ∧
    length (prediction_heads m) = 2 ∧
    ∃ w2 entry, forward Demo.no_dropout m ∅ w' = (w2, Ok (VList [entry])).
Proof.
  assert (H : ∃ (w' : Demo.state) (m : Demo.model),
            Demo.load_out "cpu" Demo.w_saved_two = (w', Ok m) ∧
            length (prediction_heads m) = 2).
  { vm_compute. by eexists _, _. }
  destruct H as (w' & m & H & Hlen). exists w', m. split; [exact H|].
  split; [exact Hlen|].
  destruct (loaded_model_forwards_one_entry Z.add id Demo.no_dropout
              Demo.encoder_from_config Demo.head_from_config
              "BiAdaptiveModel" ["out"] "cpu" true "lm1" "lm2" None
              Demo.w_saved_two w' m H) as (_ & _ & _ & _ & Hfwd).
  destruct (Hfwd ∅ w') as (w2 & entry & Hrun & _). by exists w2, entry.
Defined.

(** X14, witness: the directory with [model.onnx] and two head config
    files. *)
Lemma load_of_frozen_directory_never_returns_witness :
  ∃ w' e,
    BaseBiAdaptiveModel_load Z.add id Demo.encoder_from_config
      Demo.head_from_config Demo.load_out_kwargs Demo.w_frozen = (w', Raise e).
Proof.
  apply (load_of_frozen_directory_never_returns Z.add id Demo.encoder_from_config
           Demo.head_from_config Demo.load_out_kwargs ["out"] Demo.w_frozen).
  - reflexivity.
  - by vm_compute.
Defined.

(** X16, witness: two heads, the second never connected, and one logits
    entry: the loss of the first head is returned. *)
Lemma logits_to_loss_per_head_pairs_heads_with_logits_witness :
  (logits_to_loss_per_head (Demo.mk_model [Demo.h0; Demo.h1_unconnected] None None)
     [VTensor [1; 2; 3]%Z] ∅ Demo.w0).2 =
  Ok [VTensor [1; 2; 3]%Z].
Proof.
  destruct (logits_to_loss_per_head_pairs_heads_with_logits
              (Demo.mk_model [Demo.h0; Demo.h1_unconnected] None None)
              [VTensor [1; 2; 3]%Z] ∅ Demo.w0) as [Hrun _].
  - repeat constructor. by eexists.
  - rewrite Hrun. by vm_compute.
Defined.

(** X17, witness: one head, never connected, and no logits. *)
Lemma logits_to_loss_without_pairs_is_zero_witness :
  logits_to_loss (Demo.mk_model [Demo.h1_unconnected] None None) [] VNone ∅ Demo.w0 =
  (Demo.w0, Ok (VInt 0)).
Proof.
  apply (logits_to_loss_without_pairs_is_zero Z.add id).
  - reflexivity.
  - by right.
Defined.

(** X19, witness: two heads started with both dropout counters at 0. *)
Lemma forward_effects_witness :
  w_trace (forward Demo.tagging_dropout Demo.two_head_model ∅ Demo.w0).1 =
  [EncoderForward LM1; EncoderForward LM2;
   DropoutDraw LM1 0; DropoutDraw LM2 0; HeadForward 0;
   DropoutDraw LM1 1; DropoutDraw LM2 1; HeadForward 1].
Proof.
  destruct (forward_effects Demo.tagging_dropout Demo.two_head_model ∅ Demo.w0)
    as [Htrace _].
  - unfold modes_cover_heads. cbn. split_and!; try lia; by repeat constructor.
  - exact Htrace.
Defined.

(** X20, witness: two collected batches with predictions [1, 2] and [3]. *)
Lemma formatted_preds_one_head_flattens_collected_witness :
  formatted_preds Demo.stack_id [Demo.h0] (VList [VTensor [5]%Z])
    Demo.enc_a Demo.enc_b Demo.collected_kwargs Demo.w0 =
  (log_events Demo.w0 [HeadFormattedPreds 0],
   Ok (as_prediction_list (VTuple [VInt 0; VList [VInt 1; VInt 2; VInt 3]]))).
Proof.
  apply (formatted_preds_one_head_flattens_collected Demo.stack_id Demo.h0
             (VList [VTensor [5]%Z]) (VTensor [5]%Z) Demo.enc_a Demo.enc_b
             Demo.collected_kwargs Demo.w0
             (VList [VTuple [VList [VInt 1; VInt 2]; VStr "rest"];
                     VTuple [VList [VInt 3]; VStr "rest"]])
             [VTuple [VList [VInt 1; VInt 2]; VStr "rest"];
              VTuple [VList [VInt 3]; VStr "rest"]]
             [VList [VInt 1; VInt 2]; VList [VInt 3]]
             [[VInt 1; VInt 2]; [VInt 3]]).
  - by vm_compute.
  - reflexivity.
  - by repeat constructor.
  - by repeat constructor.
  - reflexivity.
Defined.

(** X21, witness: two heads and no [preds]. *)
Lemma formatted_preds_without_collected_preds_witness :
  formatted_preds Demo.stack_id [Demo.h0; Demo.h1] (VList [])
    Demo.enc_a Demo.enc_b ∅ Demo.w0 =
  (Demo.w0, Raise (KeyError "preds")).
Proof.
  destruct (formatted_preds_without_collected_preds Demo.stack_id
              [Demo.h0; Demo.h1] (VList []) Demo.enc_a Demo.enc_b ∅ Demo.w0)
    as [_ Hmany].
  - reflexivity.
  - apply Hmany. simpl. lia.
Defined.

(** X25, witness: the session answers with two outputs and the model has two
    heads; one logits entry comes back. *)
Lemma onnx_forward_single_entry_witness :
  ONNXBiAdaptiveModel_forward Demo.tensor_to_numpy Demo.session_run
    Demo.tensor_from_numpy Demo.frozen_model Demo.onnx_kwargs =
    Ok [VTensor [101; 7; 102]%Z] ∧
  (logits_to_preds (onnx_prediction_heads Demo.frozen_model)
     [VTensor [101; 7; 102]%Z] ∅ Demo.w0).2 = Ok [VInt 0].
Proof.
  assert (H : ONNXBiAdaptiveModel_forward Demo.tensor_to_numpy Demo.session_run
                Demo.tensor_from_numpy Demo.frozen_model Demo.onnx_kwargs =
              Ok [VTensor [101; 7; 102]%Z]) by (by vm_compute).
  split; [exact H|].
  destruct (onnx_forward_single_entry (lm_config:=string)
              Demo.tensor_to_numpy Demo.session_run
              Demo.tensor_from_numpy Demo.frozen_model Demo.onnx_kwargs
              [VTensor [101; 7; 102]%Z] H) as (_ & _ & _ & _ & Hpreds).
  rewrite (Hpreds ∅ Demo.w0). reflexivity.
Defined.

(** X26, witness: an extra [labels] key changes nothing. *)
Lemma onnx_forward_reads_three_inputs_witness :
  ONNXBiAdaptiveModel_forward Demo.tensor_to_numpy Demo.session_run
    Demo.tensor_from_numpy Demo.frozen_model Demo.onnx_kwargs =
  ONNXBiAdaptiveModel_forward Demo.tensor_to_numpy Demo.session_run
    Demo.tensor_from_numpy Demo.frozen_model
    (<["labels" := VInt 1]> Demo.onnx_kwargs).
Proof.
  apply (onnx_forward_reads_three_inputs Demo.tensor_to_numpy Demo.session_run
           Demo.tensor_from_numpy Demo.frozen_model);
    by vm_compute.
Defined.

(** X28, witness: three heads, two modes for encoder 1; two heads are
    served. *)
Lemma forward_serves_shortest_prefix_witness :
  ∃ w' entries,
    forward Demo.no_dropout Demo.three_head_model ∅ Demo.w0 =
      (w', Ok (VList entries)) ∧
    length entries = 2 ∧
    heads_forwarded (w_trace w') = [0; 1].
Proof.
  destruct (forward_serves_shortest_prefix Demo.no_dropout Demo.three_head_model
              ∅ Demo.w0) as (w' & entries & Hrun & Hlen & _ & Htrace).
  - discriminate.
  - by repeat constructor.
  - by repeat constructor.
  - exists w', entries. split_and!; [exact Hrun | exact Hlen | exact Htrace].
Defined.
